(** * google-job-scraper: the Express backend [backend/server.js] in Rocq

    A shallow embedding of the job-search backend: the keyword extractor
    [extractKeywords], the posting mapper of the [app.all("/scrape-jobs")]
    route, and the two route handlers with the in-memory result cache and its
    [setTimeout]-driven expiry.

    Conventions of the embedding.
    - A JavaScript string is a Rocq [string]: the sequence of its characters,
      exact for ASCII text.  [toLowerCase] and the tokenizer's word class are
      the ASCII ones; the other characters are left alone by the former and
      are separators for the latter.  Strings are well-formed text, on which
      [encodeURIComponent] does not throw.
    - A query parameter or a JSON field is a string or [undefined]; the
      latter is [None].  Where two records of the source have a field of the
      same name, the field of the later record gets a prefix
      ([job_location], [req_location], [search_location]).
    - A callback that can throw returns an [outcome].
    - The event loop is a step function on a [server] state: the synchronous
      prefix of a handler runs at a [Request] event, its continuation after
      [await axios.get(...)] at the matching [Reply] event, and the callbacks
      of [setTimeout] when a [Tick] moves the clock to or past their due
      time.  Timers are exact: a callback runs as soon as the clock reaches
      its due time, before anything else that happens at that time.
    - The middleware in front of the routes (CORS, the answer to OPTIONS
      requests, the JSON body parser) is not modelled: a request arrives as
      its method and its parameters. *)

From Stdlib Require Import ZArith Ascii String List Bool Lia Permutation Sorted.
From stdpp Require Import base option list gmap strings.

Local Open Scope Z_scope.

(** ** JavaScript strings *)

Module JsString.

Definition code (c : ascii) : nat := nat_of_ascii c.

Definition is_upper (c : ascii) : bool :=
  ((65 <=? code c) && (code c <=? 90))%nat.

Definition is_lower (c : ascii) : bool :=
  ((97 <=? code c) && (code c <=? 122))%nat.

Definition is_digit (c : ascii) : bool :=
  ((48 <=? code c) && (code c <=? 57))%nat.

Definition lower_char (c : ascii) : ascii :=
  if is_upper c then ascii_of_nat (code c + 32) else c.

(** [String.prototype.toLowerCase]. *)
Fixpoint toLowerCase (s : string) : string :=
  match s with
  | EmptyString => EmptyString
  | String c s' => String (lower_char c) (toLowerCase s')
  end.

Fixpoint startsWith (p s : string) : bool :=
  match p, s with
  | EmptyString, _ => true
  | String a p', String b s' => if Ascii.eqb a b then startsWith p' s' else false
  | String _ _, EmptyString => false
  end.

(** [String.prototype.includes]: [sub] occurs somewhere in [s]. *)
Fixpoint includes (s sub : string) : bool :=
  startsWith sub s ||
  match s with
  | EmptyString => false
  | String _ s' => includes s' sub
  end.

Fixpoint chars (s : string) : list ascii :=
  match s with
  | EmptyString => []
  | String c s' => c :: chars s'
  end.

(** [!s] for a value that is a string or [undefined]. *)
Definition falsy (v : option string) : bool :=
  match v with
  | None => true
  | Some s => if decide (s = "") then true else false
  end.

(** String conversion inside a template literal or a [+] with a string. *)
Definition to_str (v : option string) : string :=
  match v with
  | None => "undefined"
  | Some s => s
  end.

(** [v || d] on strings. *)
Definition or_else (v : option string) (d : string) : string :=
  match v with
  | None => d
  | Some s => if decide (s = "") then d else s
  end.

End JsString.

Import JsString.

(** ** The tokenizer of the [natural] package

    [natural.WordTokenizer] is a dependency of the repository.  Its
    [tokenize] splits the text at every maximal run of characters outside the
    word class (letters, digits, underscore) and then discards the empty
    pieces and the pieces that are a single space. *)

Module WordTokenizer.

Definition is_word_char (c : ascii) : bool :=
  is_upper c || is_lower c || is_digit c || Ascii.eqb c "_"%char.

(** [s.split(/[^A-Za-z0-9_]+/)]: [cur] is the piece being read, [in_gap]
    tells that the previous character belonged to a separator run. *)
Fixpoint split_gaps (s : string) (cur : string) (in_gap : bool) : list string :=
  match s with
  | EmptyString => [cur]
  | String c s' =>
      if is_word_char c then split_gaps s' (cur +:+ String c EmptyString) false
      else if in_gap then split_gaps s' cur true
      else cur :: split_gaps s' EmptyString true
  end.

Definition kept (w : string) : bool :=
  negb (String.eqb w "") && negb (String.eqb w " ").

Definition tokenize (s : string) : list string :=
  List.filter kept (split_gaps s "" false).

End WordTokenizer.

(** ** Arrays, sets and objects of the runtime *)

Module Js.

(** [Array.prototype.sort(cmp)], for a comparator given as the test
    [after x y] = "[cmp(x, y) > 0]", that is "[x] is to be placed after
    [y]".  The sort of the runtime is stable; for a comparator that is a
    consistent ordering every stable sort returns the same array, and this
    insertion sort computes it: an element moves behind exactly the
    elements that the comparator places strictly before it. *)
Section Sort.
Context {A : Type} (after : A -> A -> bool).

Fixpoint insert (x : A) (l : list A) : list A :=
  match l with
  | [] => [x]
  | y :: r => if after x y then y :: insert x r else x :: y :: r
  end.

Fixpoint sort (l : list A) : list A :=
  match l with
  | [] => []
  | x :: r => insert x (sort r)
  end.
End Sort.

(** [arr.slice(0, n)]. *)
Definition slice0 {A : Type} (n : nat) (l : list A) : list A := firstn n l.

(** [Set.prototype.add] on a set of strings kept in insertion order. *)
Definition Set_add (s : list string) (x : string) : list string :=
  if existsb (String.eqb x) s then s else s ++ [x].

(** [[...new Set(l)]]: the elements of [l] in order of first occurrence. *)
Definition Set_of (l : list string) : list string := fold_left Set_add l [].

(** [set.has(x)] for a set built from the array literal [l]. *)
Definition Set_has (l : list string) (x : string) : bool :=
  existsb (String.eqb x) l.

(** The values stored in the counting object of [extractKeywords]. *)
Inductive value :=
| VNum (n : nat)
| VStr (s : string).

(** What [acc[word]] evaluates to on an object created by [{}]: an own
    property, or a property inherited from [Object.prototype].  The keys
    read by [extractKeywords] are lowercased tokens; the only property
    names of [Object.prototype] without an uppercase letter are
    [constructor] (the function [Object]) and the accessor [__proto__]
    (which returns [Object.prototype] itself). *)
Inductive got :=
| GUndefined
| GOwn (v : value)
| GObjectFunction
| GObjectPrototype.

Fixpoint own (o : list (string * value)) (k : string) : option value :=
  match o with
  | [] => None
  | (k', v) :: r => if String.eqb k k' then Some v else own r k
  end.

Definition get (o : list (string * value)) (k : string) : got :=
  if String.eqb k "__proto__" then GObjectPrototype
  else match own o k with
       | Some v => GOwn v
       | None => if String.eqb k "constructor" then GObjectFunction else GUndefined
       end.

Fixpoint put_own (o : list (string * value)) (k : string) (v : value)
  : list (string * value) :=
  match o with
  | [] => [(k, v)]
  | (k', v') :: r =>
      if String.eqb k k' then (k', v) :: r else (k', v') :: put_own r k v
  end.

(** [acc[k] = v] for a primitive [v]: the setter of [__proto__] ignores a
    value that is neither an object nor [null]; every other key becomes (or
    updates) an own property, new keys being created last. *)
Definition set (o : list (string * value)) (k : string) (v : value)
  : list (string * value) :=
  if String.eqb k "__proto__" then o else put_own o k v.

Definition digit (c : ascii) : N := N.of_nat (code c - 48).

Fixpoint digits_value (s : string) (acc : N) : option N :=
  match s with
  | EmptyString => Some acc
  | String c s' =>
      if is_digit c then digits_value s' (10 * acc + digit c)%N else None
  end.

(** A property key is an array index when it is the canonical decimal
    numeral of an integer below [2^32 - 1]. *)
Definition array_index (k : string) : option N :=
  match k with
  | EmptyString => None
  | String c s' =>
      if Ascii.eqb c "0" && negb (String.eqb s' "") then None
      else match digits_value k 0 with
           | Some n => if (n <? 4294967295)%N then Some n else None
           | None => None
           end
  end.

Definition is_index (e : string * value) : bool :=
  match array_index (fst e) with Some _ => true | None => false end.

Definition index_of (e : string * value) : N :=
  match array_index (fst e) with Some n => n | None => 0%N end.

(** [Object.entries(o)]: the array-index keys in ascending numeric order,
    then the other keys in order of creation. *)
Definition Object_entries (o : list (string * value)) : list (string * value) :=
  sort (fun a b => (index_of b <? index_of a)%N) (List.filter is_index o)
  ++ List.filter (fun e => negb (is_index e)) o.

(** [ToNumber] on a stored value; [None] is [NaN].  The strings that reach
    the counting object are the source text of the function [Object]
    followed by ones, which is no numeric literal. *)
Definition to_number (v : value) : option Z :=
  match v with
  | VNum n => Some (Z.of_nat n)
  | VStr _ => None
  end.

End Js.

(** ** [extractKeywords] *)

Definition predefinedKeywords : list string :=
  [ "adjunct"; "faculty"; "professor"; "tenure"; "curriculum"; "syllabus";
    "instructional design"; "higher education"; "assessment"; "teaching";
    "pedagogy"; "research"; "graduate"; "undergraduate"; "accreditation";
    "learning outcomes"; "student success"; "academic advising"; "STEM";
    "liberal arts"; "education policy"; "course development"; "PhD"; "EdD";
    "leadership"; "diversity"; "inclusion"; "mentorship"; "equity";
    "collaboration"; "student engagement"; "online teaching"; "hybrid learning" ].

Definition stopwords : list string :=
  [ "the"; "and"; "for"; "with"; "that"; "this"; "will"; "are"; "have"; "not";
    "all"; "can"; "but"; "more"; "some" ].

(** [word => word.length > 2 && !stopwords.has(word)] *)
Definition keep_word (word : string) : bool :=
  (2 <? String.length word)%nat && negb (Js.Set_has stopwords word).

(** [(acc[word] || 0) + 1]: a missing count starts at one, a number is
    incremented, and anything else that is truthy is converted to a string
    and gets the character 1 appended. *)
Definition bump (g : Js.got) : Js.value :=
  match g with
  | Js.GUndefined => Js.VNum 1
  | Js.GOwn (Js.VNum n) => Js.VNum (n + 1)
  | Js.GOwn (Js.VStr s) => if String.eqb s "" then Js.VNum 1 else Js.VStr (s +:+ "1")
  | Js.GObjectFunction => Js.VStr "function Object() { [native code] }1"
  | Js.GObjectPrototype => Js.VStr "[object Object]1"
  end.

(** The callback of [reduce]. *)
Definition count_word (acc : list (string * Js.value)) (word : string)
  : list (string * Js.value) :=
  Js.set acc word (bump (Js.get acc word)).

(** [(a, b) => b[1] - a[1]], with a [NaN] result read as [+0] by the sort. *)
Definition compareFn (a b : string * Js.value) : Z :=
  match Js.to_number (snd b), Js.to_number (snd a) with
  | Some y, Some x => y - x
  | _, _ => 0
  end.

Definition dynamicKeywords (words : list string) : list (string * Js.value) :=
  fold_left count_word (List.filter keep_word words) [].

(** All counted words in rank order, before [slice(0, 5)].  As long as every
    count is a number the comparator is a consistent ordering and the result
    is that of any stable sort.  A count that is a string (the word is
    [constructor]) compares as equal to every other one; what the runtime's
    sort returns for such a comparator depends on its algorithm, and only
    the fact that it returns the same entries is used for such texts. *)
Definition rankedKeywords (words : list string) : list (string * Js.value) :=
  Js.sort (fun a b => 0 <? compareFn a b) (Js.Object_entries (dynamicKeywords words)).

Definition topDynamicKeywords (words : list string) : list string :=
  map fst (Js.slice0 5 (rankedKeywords words)).

Definition words_of (description : string) : list string :=
  WordTokenizer.tokenize (toLowerCase description).

Definition extractKeywords (description : option string) : list string :=
  if falsy description then []
  else
    let words := words_of (to_str description) in
    Js.slice0 10
      (Js.Set_of (topDynamicKeywords words
                  ++ List.filter (Js.Set_has predefinedKeywords) words)).

(** ** Thrown exceptions *)

Inductive error :=
| TypeError (message : string).

Inductive outcome (A : Type) :=
| Returned (a : A)
| Thrown (e : error).
Arguments Returned {A} a.
Arguments Thrown {A} e.

Global Instance outcome_ret : MRet outcome := fun A a => Returned a.

Global Instance outcome_bind : MBind outcome := fun A B k m =>
  match m with
  | Returned a => k a
  | Thrown e => Thrown e
  end.

(** ** The posting mapper of [app.all("/scrape-jobs")] *)

Module Uri.

Definition hex_digit (n : nat) : ascii :=
  match String.get n "0123456789ABCDEF" with
  | Some c => c
  | None => "0"%char
  end.

(** The characters that [encodeURIComponent] leaves as they are. *)
Definition unreserved (c : ascii) : bool :=
  is_upper c || is_lower c || is_digit c
  || existsb (Ascii.eqb c) (chars "-_.!~*'()").

Definition escape (c : ascii) : string :=
  if unreserved c then String c EmptyString
  else String "%" (String (hex_digit (code c / 16))
                     (String (hex_digit (code c mod 16)) EmptyString)).

Fixpoint encodeURIComponent (s : string) : string :=
  match s with
  | EmptyString => EmptyString
  | String c s' => escape c +:+ encodeURIComponent s'
  end.

End Uri.

Record RawLink := {
  text : option string;
  link : option string
}.

Record RawPosting := {
  title : option string;
  company_name : option string;
  location : option string;
  salary : option string;
  description : option string;
  related_links : option (list RawLink)
}.

Record JobRecord := {
  company : option string;
  role : option string;
  job_location : string;
  job_salary : string;
  url : string;
  ats_keywords : list string
}.

(** The callback of [find]: reading [toLowerCase] off a missing [text]
    throws. *)
Definition mentions_apply (l : RawLink) : outcome bool :=
  match text l with
  | None =>
      Thrown (TypeError "Cannot read properties of undefined (reading 'toLowerCase')")
  | Some t =>
      Returned (includes (toLowerCase t) "apply"
                || includes (toLowerCase t) "job posting")
  end.

(** [links.find(callback)]: stops at the first link the callback accepts. *)
Fixpoint find_apply (links : list RawLink) : outcome (option RawLink) :=
  match links with
  | [] => Returned None
  | l :: rest =>
      hit ← mentions_apply l;
      if hit : bool then Returned (Some l) else find_apply rest
  end.

Definition site_filter : string :=
  " site:higheredjobs.com OR site:linkedin.com OR site:edjoin.org".

Definition fallbackLink (job : RawPosting) : string :=
  "https://www.google.com/search?q="
  +:+ Uri.encodeURIComponent
        (to_str (title job) +:+ " " +:+ to_str (company_name job) +:+ site_filter).

(** [job.related_links?.find(...)?.link || fallback] *)
Definition applyLink (job : RawPosting) : outcome string :=
  found ← match related_links job with
          | None => Returned None
          | Some links => find_apply links
          end;
  Returned (or_else (found ≫= link) (fallbackLink job)).

(** The callback of [jobs_results.map]; [None] is the [null] returned for an
    entry that is missing or has no description. *)
Definition mapJob (job : option RawPosting) : outcome (option JobRecord) :=
  match job with
  | None => Returned None
  | Some job =>
      if falsy (description job) then Returned None
      else
        applyLink ← applyLink job;
        Returned (Some {| company := company_name job;
                          role := title job;
                          job_location := or_else (location job) "Not specified";
                          job_salary := or_else (salary job) "Not provided";
                          url := applyLink;
                          ats_keywords := extractKeywords (description job) |})
  end.

(** [arr.map(callback)] for a callback that may throw. *)
Fixpoint map_outcome {A B : Type} (f : A -> outcome B) (l : list A) : outcome (list B) :=
  match l with
  | [] => Returned []
  | x :: r => y ← f x; ys ← map_outcome f r; Returned (y :: ys)
  end.

(** [arr.filter(Boolean)] on an array of records and [null]s. *)
Fixpoint filter_Boolean {A : Type} (l : list (option A)) : list A :=
  match l with
  | [] => []
  | Some x :: r => x :: filter_Boolean r
  | None :: r => filter_Boolean r
  end.

(** [jobs_results.map(callback).filter(Boolean)] *)
Definition mapJobs (jobs_results : list (option RawPosting)) : outcome (list JobRecord) :=
  match map_outcome mapJob jobs_results with
  | Returned mapped => Returned (filter_Boolean mapped)
  | Thrown e => Thrown e
  end.

(** ** The result cache and its timers

    [const cache = new Map()] together with the callbacks registered by
    [setTimeout(() => cache.delete(cacheKey), 3600000)].  Time is the clock
    of the event loop in milliseconds.  A timer is the pair of its due time
    and the key its callback deletes; [fired] records the callbacks that have
    run. *)

Module ResultCache.

Record state := {
  now : Z;
  store : gmap string (list (option RawPosting));
  timers : list (Z * string);
  fired : list (Z * string)
}.

Definition empty : state :=
  {| now := 0; store := ∅; timers := []; fired := [] |}.

Definition ttl : Z := 3600000.


(** [cache.get(key)] *)
Definition get (key : string) (c : state) : option (list (option RawPosting)) :=
  store c !! key.

(** [cache.set(key, value); setTimeout(() => cache.delete(key), 3600000)] *)
Definition put (key : string) (value : list (option RawPosting)) (c : state) : state :=
  {| now := now c;
     store := <[key := value]> (store c);
     timers := timers c ++ [(now c + ttl, key)];
     fired := fired c |}.

Definition due (t : Z) (tm : Z * string) : bool := fst tm <=? t.

(** The callback of one timer: [cache.delete(key)]. *)
Definition expire (st : gmap string (list (option RawPosting))) (tm : Z * string)
  : gmap string (list (option RawPosting)) :=
  delete (snd tm) st.

(** The clock reaches [t]: every timer due by then runs, in the order of
    registration, and is gone afterwards.  The clock never goes back. *)
Definition advance (t : Z) (c : state) : state :=
  if t <=? now c then c
  else
    {| now := t;
       store := fold_left expire (List.filter (due t) (timers c)) (store c);
       timers := List.filter (fun tm => negb (due t tm)) (timers c);
       fired := fired c ++ List.filter (due t) (timers c) |}.

Inductive op :=
| Advance (t : Z)
| Put (key : string) (value : list (option RawPosting))
| Get (key : string).

Definition apply (c : state) (o : op) : state :=
  match o with
  | Advance t => advance t c
  | Put key value => put key value c
  | Get _ => c
  end.

Definition run (ops : list op) (c : state) : state := fold_left apply ops c.


Definition for_key (key : string) (tm : Z * string) : bool := String.eqb key (snd tm).

(** The timers for [key] that are pending, and the callbacks for [key] that
    have run. *)
Definition pending_for (key : string) (c : state) : list (Z * string) :=
  List.filter (for_key key) (timers c).

Definition fired_for (key : string) (c : state) : list (Z * string) :=
  List.filter (for_key key) (fired c).

(** What holds of [key] from the insertion of [value] at a time whose
    deadline is [deadline], as long as nothing else is put under [key]:
    before the deadline the value is stored and its timer is the only one
    pending for the key; from the deadline on the key is absent, no timer is
    pending for it, and exactly one more callback for it has run. *)
Definition lifetime (key : string) (value : list (option RawPosting))
  (deadline : Z) (before : list (Z * string)) (c : state) : Prop :=
  (now c < deadline
   /\ store c !! key = Some value
   /\ pending_for key c = [(deadline, key)]
   /\ fired_for key c = before)
  \/ (deadline <= now c
      /\ store c !! key = None
      /\ pending_for key c = []
      /\ fired_for key c = before ++ [(deadline, key)]).

End ResultCache.

(** ** The two routes of [/scrape-jobs] *)

Inductive method := GET | HEAD | POST | PUT | PATCH | DELETE.

(** The parameters of a request: [req.query], or [req.body] for a POST. *)
Record request := {
  req_method : method;
  keyword : option string;
  req_location : option string;
  next_page_token : option string
}.

(** The [params] of [axios.get("https://serpapi.com/search", { params })]. *)
Record upstream_params := {
  engine : string;
  q : string;
  search_location : string;
  api_key : string;
  page_token : option string
}.

(** [response.data] of the upstream call. *)
Record upstream_data := {
  jobs_results : option (list (option RawPosting));
  total_results : option nat;
  next_token : option string
}.

(** The upstream call settles with data or rejects with an error carrying a
    message and, when the provider answered, the [error] field of its body. *)
Inductive upstream_result :=
| Fulfilled (data : upstream_data)
| Rejected (message : string) (response_error : option (option string)).

Inductive body :=
| RawJobs (jobs : list (option RawPosting))
| Jobs (jobs : option (list JobRecord)) (total : nat) (next : option string)
| Failure (error : option string) (details : option string).

Record response := {
  status : nat;
  json : body
}.

Inductive effect :=
| CacheHas (key : string) (hit : bool)
| CacheGet (key : string)
| CacheSet (key : string)
| SetTimeout (key : string) (delay : Z)
| AxiosGet (id : nat) (params : upstream_params)
| Respond (id : nat) (r : response).

(** What a suspended handler does once [await axios.get(...)] settles. *)
Inductive continuation :=
| ResumeGet (cacheKey : string)
| ResumeAll.

Record server := {
  SERPAPI_KEY : option string;
  cache : ResultCache.state;
  awaiting : list (nat * continuation);
  log : list effect
}.

Definition boot (key : option string) : server :=
  {| SERPAPI_KEY := key; cache := ResultCache.empty; awaiting := []; log := [] |}.

(** [`${keyword}-${location}`] *)
Definition cacheKey (keyword location : option string) : string :=
  to_str keyword +:+ "-" +:+ to_str location.

Definition emit (es : list effect) (s : server) : server :=
  {| SERPAPI_KEY := SERPAPI_KEY s; cache := cache s;
     awaiting := awaiting s; log := log s ++ es |}.

Definition suspend (id : nat) (k : continuation) (s : server) : server :=
  {| SERPAPI_KEY := SERPAPI_KEY s; cache := cache s;
     awaiting := awaiting s ++ [(id, k)]; log := log s |}.

Definition with_cache (c : ResultCache.state) (s : server) : server :=
  {| SERPAPI_KEY := SERPAPI_KEY s; cache := c;
     awaiting := awaiting s; log := log s |}.

Definition bad_request : response :=
  {| status := 400; json := Failure (Some "Keyword is required") None |}.

Definition missing_key : response :=
  {| status := 500;
     json := Failure (Some "Server configuration error: Missing API key") None |}.

(** [app.get("/scrape-jobs", ...)] up to its [await].  The map holds arrays
    only, so [cache.has(key)] is true exactly when [cache.get(key)] is one. *)
Definition get_handler (id : nat) (r : request) (s : server) : server :=
  let key := cacheKey (keyword r) (req_location r) in
  match ResultCache.get key (cache s) with
  | Some jobs =>
      emit [CacheHas key true; CacheGet key;
            Respond id {| status := 200; json := RawJobs jobs |}] s
  | None =>
      if falsy (keyword r) then
        emit [CacheHas key false; Respond id bad_request] s
      else if falsy (SERPAPI_KEY s) then
        emit [CacheHas key false; Respond id missing_key] s
      else
        suspend id (ResumeGet key)
          (emit [CacheHas key false;
                 AxiosGet id {| engine := "google_jobs";
                                q := to_str (keyword r);
                                search_location := or_else (req_location r) "United States";
                                api_key := to_str (SERPAPI_KEY s);
                                page_token := None |}] s)
  end.

(** [app.all("/scrape-jobs", ...)] up to its [await]. *)
Definition all_handler (id : nat) (r : request) (s : server) : server :=
  if falsy (keyword r) then emit [Respond id bad_request] s
  else if falsy (SERPAPI_KEY s) then emit [Respond id missing_key] s
  else
    suspend id ResumeAll
      (emit [AxiosGet id {| engine := "google_jobs";
                            q := to_str (keyword r);
                            search_location := or_else (req_location r) "United States";
                            api_key := to_str (SERPAPI_KEY s);
                            page_token :=
                              if falsy (next_page_token r) then None
                              else next_page_token r |}] s).

(** The router: the route registered by [app.get] comes first and always
    answers, so it takes every GET (and HEAD) request; the route registered
    by [app.all] sees the requests with the other methods. *)
Definition route (id : nat) (r : request) (s : server) : server :=
  match req_method r with
  | GET | HEAD => get_handler id r s
  | _ => all_handler id r s
  end.

(** The rest of the [app.get] handler. *)
Definition resume_get (id : nat) (key : string) (u : upstream_result) (s : server) : server :=
  match u with
  | Fulfilled data =>
      let jobResults := default [] (jobs_results data) in
      emit [CacheSet key; SetTimeout key ResultCache.ttl;
            Respond id {| status := 200; json := RawJobs jobResults |}]
        (with_cache (ResultCache.put key jobResults (cache s)) s)
  | Rejected message _ =>
      emit [Respond id {| status := 500;
                          json := Failure (Some "API request failed") (Some message) |}] s
  end.

(** The body of the [try] block of the [app.all] handler after the [await];
    [jobs] stays [undefined] when the provider sent no [jobs_results], and
    reading [jobs.length] then throws. *)
Definition all_success (data : upstream_data) : outcome body :=
  jobs ← match jobs_results data with
         | None => Returned None
         | Some l => mapped ← mapJobs l; Returned (Some mapped)
         end;
  total ← match total_results data with
          | Some (S n) => Returned (S n)
          | _ => match jobs with
                 | Some l => Returned (length l)
                 | None =>
                     Thrown (TypeError "Cannot read properties of undefined (reading 'length')")
                 end
          end;
  Returned (Jobs jobs total
              (if falsy (next_token data) then None else next_token data)).

(** The rest of the [app.all] handler, with its [catch]. *)
Definition resume_all (id : nat) (u : upstream_result) (s : server) : server :=
  match u with
  | Fulfilled data =>
      match all_success data with
      | Returned b => emit [Respond id {| status := 200; json := b |}] s
      | Thrown (TypeError message) =>
          emit [Respond id {| status := 500;
                              json := Failure (Some "Failed to fetch jobs") (Some message) |}] s
      end
  | Rejected message response_error =>
      emit [Respond id {| status := 500;
                          json := Failure (default (Some "Failed to fetch jobs") response_error)
                                    (Some message) |}] s
  end.

Fixpoint take_awaiting (id : nat) (l : list (nat * continuation))
  : option (continuation * list (nat * continuation)) :=
  match l with
  | [] => None
  | (id', k) :: r =>
      if Nat.eqb id id' then Some (k, r)
      else '(k', r') ← take_awaiting id r; Some (k', (id', k) :: r')
  end.

Inductive event :=
| Request (id : nat) (r : request)
| Reply (id : nat) (u : upstream_result)
| Tick (t : Z).

Definition step (s : server) (e : event) : server :=
  match e with
  | Request id r => route id r s
  | Reply id u =>
      match take_awaiting id (awaiting s) with
      | None => s
      | Some (k, rest) =>
          let s' := {| SERPAPI_KEY := SERPAPI_KEY s; cache := cache s;
                       awaiting := rest; log := log s |} in
          match k with
          | ResumeGet key => resume_get id key u s'
          | ResumeAll => resume_all id u s'
          end
      end
  | Tick t => with_cache (ResultCache.advance t (cache s)) s
  end.

Definition run (events : list event) (s : server) : server := fold_left step events s.

(** The responses sent so far, oldest first. *)
Definition responses (s : server) : list (nat * response) :=
  omap (fun e => match e with Respond id r => Some (id, r) | _ => None end) (log s).

(** The cache operations that one event performs, and those of a whole
    sequence of events. *)
Definition cache_ops (s : server) (e : event) : list ResultCache.op :=
  match e with
  | Request _ r =>
      match req_method r with
      | GET | HEAD => [ResultCache.Get (cacheKey (keyword r) (req_location r))]
      | _ => []
      end
  | Reply id (Fulfilled data) =>
      match take_awaiting id (awaiting s) with
      | Some (ResumeGet key, _) => [ResultCache.Put key (default [] (jobs_results data))]
      | _ => []
      end
  | Reply _ (Rejected _ _) => []
  | Tick t => [ResultCache.Advance t]
  end.

Fixpoint cache_trace (events : list event) (s : server) : list ResultCache.op :=
  match events with
  | [] => []
  | e :: rest => cache_ops s e ++ cache_trace rest (step s e)
  end.

(** ** Vocabulary of the statements *)

(** Curated entries made of several words, and entries with a capital. *)
Definition multi_word (k : string) : bool := existsb (Ascii.eqb " "%char) (chars k).

Definition has_upper (k : string) : bool := existsb is_upper (chars k).

Definition not_proto (w : string) : bool := negb (String.eqb w "__proto__").

(** The words that are counted: longer than two characters, no stopword. *)
Definition kept_words (description : string) : list string :=
  List.filter keep_word (words_of description).

(** How often [w] occurs in [ws], and where it occurs first. *)
Definition frequency (ws : list string) (w : string) : nat :=
  length (List.filter (String.eqb w) ws).

Fixpoint first_index (ws : list string) (w : string) : nat :=
  match ws with
  | [] => 0
  | x :: r => if String.eqb w x then 0 else S (first_index r w)
  end.

Definition occurs_before (ws : list string) (a b : string) : Prop :=
  (first_index ws a < first_index ws b)%nat.

(** The ranking of the specification: more frequent first, and among equally
    frequent words the one that occurs first. *)
Definition outranks_spec (ws : list string) (a b : string) : Prop :=
  (frequency ws b < frequency ws a)%nat
  \/ (frequency ws a = frequency ws b /\ occurs_before ws a b).

(** The order in which an object enumerates its keys: array indices by
    value, then the other keys as they were created. *)
Definition key_before (ws : list string) (a b : string) : Prop :=
  match Js.array_index a, Js.array_index b with
  | Some m, Some n => (m < n)%N
  | Some _, None => True
  | None, Some _ => False
  | None, None => occurs_before ws a b
  end.

(** The ranking of the code: more frequent first, and among equally frequent
    words the one whose key the counting object enumerates first. *)
Definition outranks (ws : list string) (a b : string) : Prop :=
  (frequency ws b < frequency ws a)%nat
  \/ (frequency ws a = frequency ws b /\ key_before ws a b).

(** A word read and written as an ordinary own property of the counter. *)
Definition plain (w : string) : bool :=
  negb (String.eqb w "__proto__") && negb (String.eqb w "constructor").

Definition counted (p : list string) (w : string) : option Js.value :=
  if (frequency p w =? 0)%nat then None else Some (Js.VNum (frequency p w)).

Definition index_key (w : string) : bool :=
  match Js.array_index w with Some _ => true | None => false end.




(** Sample data for the scenarios below. *)
Definition posting (t : string) : option RawPosting :=
  Some {| title := Some t; company_name := Some "Example University";
          location := None; salary := None;
          description := Some "Teaching and research."; related_links := None |}.

Definition reply_with (jobs : list (option RawPosting)) : upstream_result :=
  Fulfilled {| jobs_results := Some jobs; total_results := None; next_token := None |}.

Definition query (m : method) (k l : option string) : request :=
  {| req_method := m; keyword := k; req_location := l; next_page_token := None |}.

(** ** Vocabulary of the further properties *)


(** The text that the function [Object] converts to, and [n] ones. *)
Definition Object_source : string := "function Object() { [native code] }".

Fixpoint ones (n : nat) : string :=
  match n with
  | O => ""
  | S n' => ones n' +:+ "1"
  end.

(** The count that the counter holds for the word [constructor] after [n]
    occurrences. *)
Definition constructor_count (n : nat) : option Js.value :=
  match n with
  | O => None
  | S _ => Some (Js.VStr (Object_source +:+ ones n))
  end.



(** The postings of a result list that have a description. *)
Fixpoint described (l : list (option RawPosting)) : list RawPosting :=
  match l with
  | [] => []
  | Some job :: r => if falsy (description job) then described r else job :: described r
  | None :: r => described r
  end.

Definition is_request (e : event) : bool :=
  match e with Request _ _ => true | _ => false end.

(** A request that the route of [app.get] takes. *)
Definition is_get (r : request) : bool :=
  match req_method r with GET | HEAD => true | _ => false end.

Definition gets_only (e : event) : bool :=
  match e with Request _ r => is_get r | _ => true end.

Definition no_gets (e : event) : bool :=
  match e with Request _ r => negb (is_get r) | _ => true end.

(** A provider call as the handlers intend it: for a keyword, with a
    location, with the configured key. *)
Definition valid_call (key : option string) (e : effect) : bool :=
  match e with
  | AxiosGet _ p =>
      negb (String.eqb (q p) "")
      && negb (String.eqb (search_location p) "")
      && negb (String.eqb (api_key p) "")
      && (if decide (key = Some (api_key p)) then true else false)
      && String.eqb (engine p) "google_jobs"
  | _ => true
  end.

Definition cache_effect (e : effect) : bool :=
  match e with
  | CacheHas _ _ | CacheGet _ | CacheSet _ | SetTimeout _ _ => true
  | _ => false
  end.

(** An answer with mapped records, as only the route of [app.all] sends. *)
Definition mapped_answer (ir : nat * response) : bool :=
  match json (snd ir) with Jobs _ _ _ => true | _ => false end.

Definition rejection (ir : nat * response) : bool :=
  match json (snd ir) with
  | Failure _ _ => (status (snd ir) =? 400)%nat || (status (snd ir) =? 500)%nat
  | _ => false
  end.


Definition no_hyphen (s : string) : bool :=
  negb (existsb (Ascii.eqb "-"%char) (chars s)).

(** Every pending timer is due within the next hour, and every stored key
    has a pending timer. *)
Definition well_timed (c : ResultCache.state) : Prop :=
  (forall tm, In tm (ResultCache.timers c) ->
     ResultCache.now c < fst tm <= ResultCache.now c + ResultCache.ttl)
  /\ (forall k v, ResultCache.store c !! k = Some v ->
        exists d, In (d, k) (ResultCache.timers c)).

(** What a waiting request resumes with. *)
Definition resumes_all (ik : nat * continuation) : Prop := snd ik = ResumeAll.

Definition resumes_get (ik : nat * continuation) : Prop :=
  exists key, snd ik = ResumeGet key.


(** A provider call without page token. *)
Definition unpaged_call (e : effect) : bool :=
  match e with
  | AxiosGet _ p => match page_token p with None => true | Some _ => false end
  | _ => true
  end.


(** * Properties *)

(** ** Characters and tokens *)

Lemma chars_app (a b : string) : chars (a +:+ b) = chars a ++ chars b.
Proof. induction a as [|c a IH]; simpl; [reflexivity | now rewrite IH]. Qed.

Lemma lower_char_not_upper (c : ascii) : is_upper (lower_char c) = false.
Proof. destruct c as [[] [] [] [] [] [] [] []]; reflexivity. Qed.

Lemma toLowerCase_no_upper (s : string) :
  Forall (fun c => is_upper c = false) (chars (toLowerCase s)).
Proof.
  induction s as [|c s IH]; simpl; constructor; auto using lower_char_not_upper.
Qed.

Lemma split_gaps_chars (Q : ascii -> Prop) (s cur : string) (in_gap : bool) :
  Forall Q (chars cur) ->
  (forall c, In c (chars s) -> WordTokenizer.is_word_char c = true -> Q c) ->
  Forall (fun t => Forall Q (chars t)) (WordTokenizer.split_gaps s cur in_gap).
Proof.
  revert cur in_gap.
  induction s as [|c s IH]; intros cur in_gap Hcur Hs; simpl.
  - repeat constructor; assumption.
  - destruct (WordTokenizer.is_word_char c) eqn:Hc.
    + apply IH.
      * rewrite chars_app. apply Forall_app; split; [assumption|].
        repeat constructor. apply Hs; simpl; auto.
      * intros d Hd. apply Hs; simpl; auto.
    + assert (Hs' : forall d, In d (chars s) ->
                      WordTokenizer.is_word_char d = true -> Q d)
        by (intros d Hd; apply Hs; simpl; auto).
      destruct in_gap.
      * apply IH; assumption.
      * constructor; [assumption|]. apply IH; [constructor | assumption].
Qed.

(** Every token is made of word characters taken from the text. *)
Lemma tokenize_chars (s t : string) :
  In t (WordTokenizer.tokenize s) ->
  Forall (fun c => WordTokenizer.is_word_char c = true /\ In c (chars s)) (chars t).
Proof.
  unfold WordTokenizer.tokenize. intros Ht.
  apply filter_In in Ht as [Ht _].
  pose proof (split_gaps_chars
                (fun c => WordTokenizer.is_word_char c = true /\ In c (chars s))
                s "" false) as H.
  assert (Hall := H (List.Forall_nil _) (fun c Hin Hw => conj Hw Hin)).
  exact (proj1 (List.Forall_forall _ _) Hall t Ht).
Qed.

Lemma words_of_chars (description t : string) :
  In t (words_of description) ->
  Forall (fun c => WordTokenizer.is_word_char c = true /\ is_upper c = false) (chars t).
Proof.
  intros Ht. apply tokenize_chars in Ht.
  pose proof (toLowerCase_no_upper description) as Hl.
  rewrite List.Forall_forall in *. intros c Hc. destruct (Ht c Hc) as [Hw Hin].
  split; [assumption | apply Hl; assumption].
Qed.

(** ** Sets and sorting *)

Lemma Set_has_In (l : list string) (x : string) : Js.Set_has l x = true <-> In x l.
Proof.
  unfold Js.Set_has. rewrite existsb_exists. split.
  - intros [y [Hy He]]. apply String.eqb_eq in He. now subst.
  - intros H. exists x. split; [assumption | apply String.eqb_refl].
Qed.

Lemma Set_add_In (s : list string) (x y : string) :
  In y (Js.Set_add s x) <-> In y s \/ y = x.
Proof.
  unfold Js.Set_add. destruct (existsb (String.eqb x) s) eqn:E.
  - apply (Set_has_In s x) in E. split; [auto | intros [H | ->]; assumption].
  - rewrite in_app_iff. simpl. intuition.
Qed.

Lemma Set_add_NoDup (s : list string) (x : string) :
  NoDup s -> NoDup (Js.Set_add s x).
Proof.
  intros Hs. unfold Js.Set_add. destruct (existsb (String.eqb x) s) eqn:E; [assumption|].
  apply NoDup_app. split; [assumption|]. split.
  - intros y Hy Hx. apply list_elem_of_In in Hy. apply list_elem_of_In in Hx.
    simpl in Hx. destruct Hx as [<- | []].
    apply (Set_has_In s x) in Hy. unfold Js.Set_has in Hy. congruence.
  - repeat constructor. intros H. inversion H.
Qed.

Lemma fold_Set_add_NoDup (l s : list string) :
  NoDup s -> NoDup (fold_left Js.Set_add l s).
Proof.
  revert s. induction l as [|x l IH]; intros s Hs; simpl; [assumption|].
  apply IH, Set_add_NoDup, Hs.
Qed.

Lemma fold_Set_add_In (l s : list string) (y : string) :
  In y (fold_left Js.Set_add l s) <-> In y s \/ In y l.
Proof.
  revert s. induction l as [|x l IH]; intros s; simpl; [intuition|].
  rewrite IH, Set_add_In. intuition.
Qed.

Lemma Set_of_NoDup (l : list string) : NoDup (Js.Set_of l).
Proof. apply fold_Set_add_NoDup. constructor. Qed.

Lemma Set_of_In (l : list string) (y : string) : In y (Js.Set_of l) <-> In y l.
Proof. unfold Js.Set_of. rewrite fold_Set_add_In. simpl. intuition. Qed.

Lemma slice0_In {A : Type} (n : nat) (l : list A) (x : A) :
  In x (Js.slice0 n l) -> In x l.
Proof.
  unfold Js.slice0. revert l. induction n as [|n IH]; intros [|y l]; simpl; try tauto.
  intros [H | H]; auto.
Qed.

Lemma slice0_NoDup {A : Type} (n : nat) (l : list A) :
  NoDup l -> NoDup (Js.slice0 n l).
Proof.
  revert l. induction n as [|n IH]; intros [|y l] H; simpl; try constructor.
  - inversion H; subst. intros Hy. apply list_elem_of_In in Hy.
    apply (slice0_In n l y) in Hy. apply list_elem_of_In in Hy. contradiction.
  - inversion H; subst. now apply IH.
Qed.

Section SortFacts.
Context {A : Type} (after : A -> A -> bool).

Lemma insert_perm (x : A) (l : list A) : Permutation (x :: l) (Js.insert after x l).
Proof.
  induction l as [|y l IH]; simpl; [reflexivity|].
  destruct (after x y); [|reflexivity].
  rewrite perm_swap. now constructor.
Qed.

Lemma sort_perm (l : list A) : Permutation l (Js.sort after l).
Proof.
  induction l as [|x l IH]; simpl; [constructor|].
  rewrite <- insert_perm. now constructor.
Qed.

Lemma sort_In (l : list A) (x : A) : In x (Js.sort after l) <-> In x l.
Proof.
  split; apply Permutation_in; [symmetry|]; apply sort_perm.
Qed.
End SortFacts.

(** ** The counting object *)

Lemma put_own_keys (o : list (string * Js.value)) (k : string) (v : Js.value) :
  map fst (Js.put_own o k v) = Js.Set_add (map fst o) k.
Proof.
  unfold Js.Set_add. induction o as [|[k' v'] o IH]; simpl; [reflexivity|].
  destruct (String.eqb k k') eqn:E; simpl; [reflexivity|].
  rewrite IH. destruct (existsb (String.eqb k) (map fst o)); reflexivity.
Qed.

Lemma count_word_keys (acc : list (string * Js.value)) (w : string) :
  map fst (count_word acc w)
  = if not_proto w then Js.Set_add (map fst acc) w else map fst acc.
Proof.
  unfold count_word, Js.set, not_proto.
  destruct (String.eqb w "__proto__"); simpl; [reflexivity | apply put_own_keys].
Qed.

Lemma fold_count_word_keys (ws : list string) (acc : list (string * Js.value)) :
  map fst (fold_left count_word ws acc)
  = fold_left Js.Set_add (List.filter not_proto ws) (map fst acc).
Proof.
  revert acc. induction ws as [|w ws IH]; intros acc; simpl; [reflexivity|].
  rewrite IH, count_word_keys. destruct (not_proto w); reflexivity.
Qed.

(** The keys of the counting object are the kept words, [__proto__] apart,
    in order of first occurrence. *)
Lemma dynamicKeywords_keys (words : list string) :
  map fst (dynamicKeywords words)
  = Js.Set_of (List.filter not_proto (List.filter keep_word words)).
Proof. unfold dynamicKeywords. now rewrite fold_count_word_keys. Qed.

Lemma filter_split_perm {A : Type} (f : A -> bool) (l : list A) :
  Permutation l (List.filter f l ++ List.filter (fun x => negb (f x)) l).
Proof.
  induction l as [|x l IH]; simpl; [constructor|].
  destruct (f x); simpl.
  - now constructor.
  - rewrite <- Permutation_middle. now constructor.
Qed.

Lemma Object_entries_perm (o : list (string * Js.value)) :
  Permutation o (Js.Object_entries o).
Proof.
  unfold Js.Object_entries. rewrite <- sort_perm. apply filter_split_perm.
Qed.

Lemma rankedKeywords_perm (words : list string) :
  Permutation (dynamicKeywords words) (rankedKeywords words).
Proof.
  unfold rankedKeywords. rewrite <- sort_perm. apply Object_entries_perm.
Qed.

Lemma rankedKeywords_keys_In (words : list string) (k : string) :
  In k (map fst (rankedKeywords words)) <->
  In k (List.filter not_proto (List.filter keep_word words)).
Proof.
  rewrite <- (Set_of_In (List.filter not_proto (List.filter keep_word words))).
  rewrite <- dynamicKeywords_keys.
  split; apply Permutation_in, Permutation_map;
    [symmetry|]; apply rankedKeywords_perm.
Qed.

Lemma topDynamicKeywords_In (words : list string) (k : string) :
  In k (topDynamicKeywords words) -> In k words /\ keep_word k = true.
Proof.
  unfold topDynamicKeywords. intros H.
  assert (Hk : In k (map fst (rankedKeywords words))).
  { apply in_map_iff in H as [e [<- He]]. apply in_map.
    eapply slice0_In; eassumption. }
  apply rankedKeywords_keys_In in Hk.
  apply filter_In in Hk as [Hk _]. apply filter_In in Hk as [Hk Hkeep]. auto.
Qed.

Lemma falsy_false (v : option string) :
  falsy v = false -> exists text, v = Some text /\ text <> "".
Proof.
  destruct v as [text|]; simpl; [|discriminate].
  destruct (decide (text = "")); [discriminate|]. eauto.
Qed.

Lemma extractKeywords_falsy (description : option string) :
  falsy description = true -> extractKeywords description = [].
Proof. unfold extractKeywords. now intros ->. Qed.

Lemma extractKeywords_text (description : option string) :
  falsy description = false ->
  extractKeywords description
  = Js.slice0 10
      (Js.Set_of (topDynamicKeywords (words_of (to_str description))
                  ++ List.filter (Js.Set_has predefinedKeywords)
                       (words_of (to_str description)))).
Proof. unfold extractKeywords. now intros ->. Qed.

(** Every extracted keyword is one of the words of the description. *)
Lemma extractKeywords_In (description : option string) (k : string) :
  In k (extractKeywords description) ->
  exists text, description = Some text /\ In k (words_of text).
Proof.
  destruct (falsy description) eqn:F.
  - rewrite extractKeywords_falsy by assumption. intros [].
  - rewrite extractKeywords_text by assumption.
    apply falsy_false in F as [text [-> _]]. cbn [to_str].
    intros H. exists text. split; [reflexivity|].
    apply slice0_In in H. rewrite Set_of_In in H.
    apply in_app_iff in H as [H | H].
    + now apply topDynamicKeywords_In in H.
    + now apply filter_In in H.
Qed.

(** ** Keyword extraction: cardinality and the curated vocabulary *)

(** C4.  For every description, absent or present, the list returned by
    [extractKeywords] has at most ten entries and no entry occurs in it
    twice. *)
Theorem extractKeywords_bounded_distinct (description : option string) :
  (length (extractKeywords description) <= 10)%nat
  /\ List.NoDup (extractKeywords description).
Proof.
  destruct (falsy description) eqn:F.
  - rewrite extractKeywords_falsy by assumption. simpl. split; [lia | constructor].
  - rewrite extractKeywords_text by assumption. split.
    + apply firstn_le_length.
    + apply NoDup_ListNoDup, slice0_NoDup, Set_of_NoDup.
Qed.

Lemma multi_word_has_space (k : string) :
  multi_word k = true -> In " "%char (chars k).
Proof.
  unfold multi_word. rewrite existsb_exists. intros [c [Hc He]].
  apply Ascii.eqb_eq in He. now subst.
Qed.

(** C7.  Whatever the description, a curated entry made of several words
    (one that contains a space, eleven of the entries) is never among the
    extracted keywords: each keyword is a token, and a token holds word
    characters only. *)
Theorem multi_word_entry_never_extracted :
  (forall (description : option string) (k : string),
      In k predefinedKeywords ->
      multi_word k = true ->
      ~ In k (extractKeywords description))
  /\ List.filter multi_word predefinedKeywords
     = [ "instructional design"; "higher education"; "learning outcomes";
         "student success"; "academic advising"; "liberal arts";
         "education policy"; "course development"; "student engagement";
         "online teaching"; "hybrid learning" ].
Proof.
  split; [|reflexivity].
  intros description k _ Hmulti Hin.
  apply extractKeywords_In in Hin as [text [_ Hin]].
  apply words_of_chars in Hin. apply multi_word_has_space in Hmulti.
  rewrite List.Forall_forall in Hin. destruct (Hin _ Hmulti) as [Hword _].
  discriminate Hword.
Qed.

Lemma multi_word_entry_never_extracted_witness :
  ~ In "instructional design"
      (extractKeywords (Some "Instructional design and higher education")).
Proof.
  apply (proj1 multi_word_entry_never_extracted
           (Some "Instructional design and higher education")
           "instructional design").
  - apply Set_has_In. reflexivity.
  - reflexivity.
Defined.

(** C9.  Whatever the description, a curated entry with a capital letter
    (STEM, PhD, EdD) is never among the extracted keywords, because every
    keyword is a token of the lowercased text; the lowercased word itself can
    still come out of the frequency ranking. *)
Theorem capitalised_entry_never_extracted :
  (forall (description : option string) (k : string),
      In k predefinedKeywords ->
      has_upper k = true ->
      ~ In k (extractKeywords description))
  /\ List.filter has_upper predefinedKeywords = ["STEM"; "PhD"; "EdD"]
  /\ extractKeywords (Some "STEM PhD EdD") = ["stem"; "phd"; "edd"].
Proof.
  split; [|split; reflexivity].
  intros description k _ Hupper Hin.
  apply extractKeywords_In in Hin as [text [_ Hin]].
  apply words_of_chars in Hin.
  unfold has_upper in Hupper. apply existsb_exists in Hupper as [c [Hc Hup]].
  rewrite List.Forall_forall in Hin. destruct (Hin _ Hc) as [_ Hlow].
  congruence.
Qed.

Lemma capitalised_entry_never_extracted_witness :
  ~ In "STEM" (extractKeywords (Some "STEM PhD EdD")).
Proof.
  apply (proj1 capitalised_entry_never_extracted (Some "STEM PhD EdD") "STEM").
  - apply Set_has_In. reflexivity.
  - reflexivity.
Defined.

(** ** The frequency ranking *)

Section StableSort.
Context {A : Type} (after : A -> A -> bool).
Context (D : A -> Prop) (R L : A -> A -> Prop).
Hypothesis after_L : forall x y, D x -> D y -> after x y = true -> L y x.
Hypothesis keep_L : forall x y, D x -> D y -> after x y = false -> R x y -> L x y.
Hypothesis L_trans : forall x y z, D x -> D y -> D z -> L x y -> L y z -> L x z.

Lemma insert_sorted (x : A) (l : list A) :
  D x -> List.Forall D l -> List.Forall (R x) l ->
  StronglySorted L l -> StronglySorted L (Js.insert after x l).
Proof.
  intros Dx. induction l as [|y l IH]; intros HD HR HS; simpl.
  - repeat constructor.
  - inversion HD as [|? ? Dy HD']; subst.
    inversion HR as [|? ? Rxy HR']; subst.
    apply StronglySorted_inv in HS as [HS Hy].
    destruct (after x y) eqn:E.
    + constructor; [now apply IH|].
      eapply Permutation_Forall; [apply insert_perm|].
      constructor; [now apply after_L | assumption].
    + assert (Lxy : L x y) by now apply keep_L.
      constructor; [now constructor|].
      constructor; [assumption|].
      rewrite List.Forall_forall in *. intros z Hz.
      apply (L_trans x y z); auto.
Qed.

Lemma sort_sorted (l : list A) :
  List.Forall D l -> StronglySorted R l -> StronglySorted L (Js.sort after l).
Proof.
  induction l as [|x l IH]; intros HD HS; simpl; [constructor|].
  inversion HD as [|? ? Dx HD']; subst.
  apply StronglySorted_inv in HS as [HS Hx].
  apply insert_sorted; auto.
  - eapply Permutation_Forall; [apply sort_perm | assumption].
  - eapply Permutation_Forall; [apply sort_perm | assumption].
Qed.
End StableSort.

Section SortedFacts.
Context {A : Type}.

Lemma StronglySorted_weaken (R R' : A -> A -> Prop) (l : list A) :
  (forall a b, In a l -> In b l -> R a b -> R' a b) ->
  StronglySorted R l -> StronglySorted R' l.
Proof.
  induction l as [|x l IH]; intros H HS; [constructor|].
  apply StronglySorted_inv in HS as [HS Hx]. constructor.
  - apply IH; [|assumption]. intros a b Ha Hb. apply H; simpl; auto.
  - rewrite List.Forall_forall in *. intros b Hb. apply H; simpl; auto.
Qed.

Lemma StronglySorted_app (R : A -> A -> Prop) (l1 l2 : list A) :
  StronglySorted R l1 -> StronglySorted R l2 ->
  (forall a b, In a l1 -> In b l2 -> R a b) ->
  StronglySorted R (l1 ++ l2).
Proof.
  induction l1 as [|x l1 IH]; intros H1 H2 H; simpl; [assumption|].
  apply StronglySorted_inv in H1 as [H1 Hx]. constructor.
  - apply IH; auto. intros a b Ha Hb. apply H; simpl; auto.
  - apply Forall_app; split; [assumption|].
    rewrite List.Forall_forall. intros b Hb. apply H; simpl; auto.
Qed.

Lemma StronglySorted_filter_keeps (R : A -> A -> Prop) (f : A -> bool) (l : list A) :
  StronglySorted R l -> StronglySorted R (List.filter f l).
Proof.
  induction l as [|x l IH]; intros HS; simpl; [constructor|].
  apply StronglySorted_inv in HS as [HS Hx].
  destruct (f x); [|auto]. constructor; [auto|].
  rewrite List.Forall_forall in *. intros b Hb. apply filter_In in Hb as [Hb _]. auto.
Qed.

Lemma StronglySorted_map_fst {B : Type} (R : A -> A -> Prop) (l : list (A * B)) :
  StronglySorted (fun a b => R (fst a) (fst b)) l -> StronglySorted R (map fst l).
Proof.
  induction l as [|x l IH]; intros HS; simpl; [constructor|].
  apply StronglySorted_inv in HS as [HS Hx]. constructor; [auto|].
  rewrite List.Forall_forall in *. intros b Hb.
  apply in_map_iff in Hb as [e [<- He]]. auto.
Qed.

Lemma StronglySorted_of_map_fst {B : Type} (R : A -> A -> Prop) (l : list (A * B)) :
  StronglySorted R (map fst l) -> StronglySorted (fun a b => R (fst a) (fst b)) l.
Proof.
  induction l as [|x l IH]; simpl; intros HS; [constructor|].
  apply StronglySorted_inv in HS as [HS Hx]. constructor; [auto|].
  rewrite List.Forall_forall in *. intros b Hb. apply Hx. now apply in_map.
Qed.
End SortedFacts.

(** *** First occurrences *)

Lemma first_index_lt (ws : list string) (w : string) :
  In w ws -> (first_index ws w < length ws)%nat.
Proof.
  induction ws as [|x ws IH]; simpl; [tauto|]. intros H.
  destruct (String.eqb w x) eqn:E; [lia|].
  apply String.eqb_neq in E. destruct H as [-> | H]; [congruence|].
  apply IH in H. lia.
Qed.

Lemma first_index_app_in (p q : list string) (w : string) :
  In w p -> first_index (p ++ q) w = first_index p w.
Proof.
  induction p as [|x p IH]; simpl; [tauto|]. intros H.
  destruct (String.eqb w x) eqn:E; [reflexivity|].
  apply String.eqb_neq in E. destruct H as [-> | H]; [congruence|].
  now rewrite IH.
Qed.

Lemma first_index_app_out (p q : list string) (w : string) :
  ~ In w p -> first_index (p ++ q) w = (length p + first_index q w)%nat.
Proof.
  induction p as [|x p IH]; simpl; [reflexivity|]. intros H.
  destruct (String.eqb w x) eqn:E.
  - apply String.eqb_eq in E. subst. tauto.
  - rewrite IH by tauto. reflexivity.
Qed.

Lemma fold_Set_add_sorted (rest p s : list string) :
  (forall w, In w s <-> In w p) ->
  StronglySorted (occurs_before p) s ->
  StronglySorted (occurs_before (p ++ rest)) (fold_left Js.Set_add rest s).
Proof.
  revert p s. induction rest as [|x rest IH]; intros p s Hs HS; simpl.
  - now rewrite app_nil_r.
  - replace (p ++ x :: rest) with ((p ++ [x]) ++ rest)
      by now rewrite <- app_assoc.
    apply IH.
    + intros w. rewrite Set_add_In, in_app_iff, Hs. simpl. intuition.
    + assert (Hold : StronglySorted (occurs_before (p ++ [x])) s).
      { eapply StronglySorted_weaken; [|exact HS].
        intros a b Ha Hb. unfold occurs_before.
        rewrite !first_index_app_in by now apply Hs. auto. }
      unfold Js.Set_add. destruct (existsb (String.eqb x) s) eqn:E; [assumption|].
      apply StronglySorted_app; [assumption | repeat constructor |].
      intros a b Ha [<- | []]. unfold occurs_before.
      assert (Hx : ~ In x p).
      { intros Hx. apply Hs, (Set_has_In s x) in Hx.
        unfold Js.Set_has in Hx. congruence. }
      rewrite first_index_app_in by now apply Hs.
      rewrite first_index_app_out by assumption.
      apply Hs, first_index_lt in Ha. simpl. rewrite String.eqb_refl. lia.
Qed.

(** A set lists its elements in the order of their first occurrences. *)
Lemma Set_of_sorted (ws : list string) :
  StronglySorted (occurs_before ws) (Js.Set_of ws).
Proof.
  apply (fold_Set_add_sorted ws [] []); [tauto | constructor].
Qed.

(** *** Counts *)

Lemma own_put_own (o : list (string * Js.value)) (k w : string) (v : Js.value) :
  Js.own (Js.put_own o k v) w = if String.eqb w k then Some v else Js.own o w.
Proof.
  induction o as [|[k' v'] o IH]; simpl.
  - reflexivity.
  - destruct (String.eqb k k') eqn:E; simpl.
    + apply String.eqb_eq in E. subst k'. destruct (String.eqb w k); reflexivity.
    + rewrite IH. destruct (String.eqb w k') eqn:E'; [|reflexivity].
      apply String.eqb_eq in E'. subst k'.
      rewrite String.eqb_sym in E. now rewrite E.
Qed.

Lemma frequency_snoc (p : list string) (x w : string) :
  frequency (p ++ [x]) w
  = (frequency p w + if String.eqb w x then 1 else 0)%nat.
Proof.
  unfold frequency. rewrite List.filter_app, List.length_app. simpl.
  destruct (String.eqb w x); reflexivity.
Qed.

Lemma count_word_own (p : list string) (acc : list (string * Js.value)) (x : string) :
  plain x = true ->
  (forall w, Js.own acc w = counted p w) ->
  forall w, Js.own (count_word acc x) w = counted (p ++ [x]) w.
Proof.
  intros Hx Hacc w. unfold plain in Hx.
  apply andb_true_iff in Hx as [Hp Hc].
  apply negb_true_iff in Hp, Hc.
  unfold count_word, Js.set, Js.get. rewrite Hp, Hc, own_put_own.
  unfold counted. rewrite frequency_snoc.
  destruct (String.eqb w x) eqn:E.
  - apply String.eqb_eq in E. subst w. rewrite Hacc. unfold counted.
    destruct (frequency p x) as [|n]; simpl; [reflexivity|].
    replace (n + 1)%nat with (S n) by lia. simpl. f_equal.
  - rewrite Hacc. unfold counted. now rewrite Nat.add_0_r.
Qed.

Lemma fold_count_word_own (rest p : list string) (acc : list (string * Js.value)) :
  List.Forall (fun w => plain w = true) rest ->
  (forall w, Js.own acc w = counted p w) ->
  forall w, Js.own (fold_left count_word rest acc) w = counted (p ++ rest) w.
Proof.
  revert p acc. induction rest as [|x rest IH]; intros p acc Hplain Hacc w; simpl.
  - now rewrite app_nil_r.
  - inversion Hplain; subst.
    replace (p ++ x :: rest) with ((p ++ [x]) ++ rest)
      by now rewrite <- app_assoc.
    apply IH; [assumption|]. now apply count_word_own.
Qed.

Lemma own_of_In (o : list (string * Js.value)) (w : string) (v : Js.value) :
  NoDup (map fst o) -> In (w, v) o -> Js.own o w = Some v.
Proof.
  induction o as [|[k' v'] o IH]; simpl; [tauto|]. intros Hnd Hin.
  inversion Hnd as [|? ? Hk Hnd']; subst.
  destruct Hin as [Heq | Hin].
  - inversion Heq; subst. now rewrite String.eqb_refl.
  - destruct (String.eqb w k') eqn:E.
    + apply String.eqb_eq in E. subst k'. exfalso. apply Hk.
      apply list_elem_of_In. change w with (fst (w, v)). now apply in_map.
    + now apply IH.
Qed.

Lemma filter_all {A : Type} (f : A -> bool) (l : list A) :
  List.Forall (fun x => f x = true) l -> List.filter f l = l.
Proof.
  induction 1 as [|x l Hx _ IH]; simpl; [reflexivity|]. now rewrite Hx, IH.
Qed.

Lemma plain_not_proto (ws : list string) :
  List.Forall (fun w => plain w = true) ws ->
  List.Forall (fun w => not_proto w = true) ws.
Proof.
  apply List.Forall_impl. intros w H. unfold plain in H.
  now apply andb_true_iff in H as [H _].
Qed.

(** Without the two inherited names the counter maps every kept word to the
    number of its occurrences. *)
Lemma dynamicKeywords_counts (words : list string) (e : string * Js.value) :
  List.Forall (fun w => plain w = true) (List.filter keep_word words) ->
  In e (dynamicKeywords words) ->
  In (fst e) (List.filter keep_word words)
  /\ snd e = Js.VNum (frequency (List.filter keep_word words) (fst e)).
Proof.
  intros Hplain He.
  assert (Hkeys := dynamicKeywords_keys words).
  rewrite (filter_all not_proto) in Hkeys by now apply plain_not_proto.
  assert (Hin : In (fst e) (List.filter keep_word words)).
  { rewrite <- Set_of_In, <- Hkeys. now apply in_map. }
  split; [assumption|].
  assert (Hnd : NoDup (map fst (dynamicKeywords words)))
    by (rewrite Hkeys; apply Set_of_NoDup).
  destruct e as [w v]. simpl in *.
  pose proof (own_of_In _ _ _ Hnd He) as Hown.
  unfold dynamicKeywords in Hown.
  rewrite (fold_count_word_own _ [] []) in Hown; [|assumption|reflexivity].
  simpl in Hown. unfold counted in Hown.
  destruct (frequency (List.filter keep_word words) w =? 0)%nat; congruence.
Qed.

(** *** The enumeration order of [Object.entries] *)

Lemma digit_le (c : ascii) : JsString.is_digit c = true -> (Js.digit c <= 9)%N.
Proof.
  unfold JsString.is_digit, Js.digit. intros H. apply andb_true_iff in H as [H1 H2].
  apply Nat.leb_le in H1, H2. lia.
Qed.

Lemma digit_inj (c d : ascii) :
  JsString.is_digit c = true -> JsString.is_digit d = true -> Js.digit c = Js.digit d -> c = d.
Proof.
  unfold JsString.is_digit, Js.digit, code. intros Hc Hd H.
  apply andb_true_iff in Hc as [Hc _]. apply andb_true_iff in Hd as [Hd _].
  apply Nat.leb_le in Hc, Hd.
  rewrite <- (ascii_nat_embedding c), <- (ascii_nat_embedding d). f_equal. lia.
Qed.

Lemma digits_value_bounds (s : string) (acc v : N) :
  Js.digits_value s acc = Some v ->
  (acc * 10 ^ N.of_nat (String.length s) <= v
   < (acc + 1) * 10 ^ N.of_nat (String.length s))%N.
Proof.
  revert acc. induction s as [|c s IH]; intros acc H; simpl in H.
  - inversion H; subst. simpl. lia.
  - destruct (JsString.is_digit c) eqn:D; [|discriminate].
    apply IH in H. pose proof (digit_le c D) as Hd.
    cbn [String.length]. rewrite Nat2N.inj_succ, N.pow_succ_r'.
    set (P := (10 ^ N.of_nat (String.length s))%N) in *.
    nia.
Qed.

Lemma digits_value_inj (a b : string) (acc v : N) :
  String.length a = String.length b ->
  Js.digits_value a acc = Some v -> Js.digits_value b acc = Some v -> a = b.
Proof.
  revert b acc. induction a as [|c a IH]; intros [|d b] acc Hlen Ha Hb;
    simpl in Hlen; try discriminate Hlen; try reflexivity.
  simpl in Ha, Hb.
  destruct (JsString.is_digit c) eqn:Dc; [|discriminate].
  destruct (JsString.is_digit d) eqn:Dd; [|discriminate].
  pose proof (digits_value_bounds _ _ _ Ha) as Ba.
  pose proof (digits_value_bounds _ _ _ Hb) as Bb.
  injection Hlen as Hlen. rewrite <- Hlen in Bb.
  set (P := (10 ^ N.of_nat (String.length a))%N) in *.
  assert (HP : (0 < P)%N) by (apply N.neq_0_lt_0, N.pow_nonzero; lia).
  assert (Heq : Js.digit c = Js.digit d) by nia.
  assert (c = d) by now apply digit_inj. subst d.
  f_equal. eapply IH; eauto.
Qed.

Lemma array_index_canonical (k : string) (n : N) :
  Js.array_index k = Some n ->
  Js.digits_value k 0 = Some n
  /\ (k = "0" \/ (10 ^ N.of_nat (pred (String.length k)) <= n)%N).
Proof.
  unfold Js.array_index. destruct k as [|c s]; [discriminate|].
  destruct (Ascii.eqb c "0") eqn:C; simpl andb.
  - destruct (String.eqb s "") eqn:S; simpl; [|discriminate].
    apply Ascii.eqb_eq in C. apply String.eqb_eq in S. subst.
    vm_compute. intros H. inversion H; subst n. split; [reflexivity | now left].
  - destruct (Js.digits_value (String c s) 0) as [v|] eqn:V; [|discriminate].
    destruct (v <? 4294967295)%N; [|discriminate]. intros H. inversion H; subst v.
    split; [reflexivity|]. right.
    simpl in V. destruct (JsString.is_digit c) eqn:D; [|discriminate].
    apply digits_value_bounds in V. cbn [String.length pred].
    assert (Hc : (1 <= Js.digit c)%N).
    { apply Ascii.eqb_neq in C. unfold JsString.is_digit in D.
      apply andb_true_iff in D as [D1 D2]. apply Nat.leb_le in D1, D2.
      assert (code c <> 48%nat).
      { intros Hc. apply C. rewrite <- (ascii_nat_embedding c). unfold code in Hc.
        now rewrite Hc. }
      unfold Js.digit. lia. }
    nia.
Qed.

(** Two keys that are the same array index are the same key. *)
Lemma array_index_inj (a b : string) (n : N) :
  Js.array_index a = Some n -> Js.array_index b = Some n -> a = b.
Proof.
  intros Ha Hb.
  apply array_index_canonical in Ha as [Va Ca].
  apply array_index_canonical in Hb as [Vb Cb].
  assert (Hlen : String.length a = String.length b).
  { pose proof (digits_value_bounds _ _ _ Va) as Ba.
    pose proof (digits_value_bounds _ _ _ Vb) as Bb.
    destruct Ca as [-> | Ca], Cb as [-> | Cb]; try reflexivity.
    - vm_compute in Va. inversion Va; subst n.
      assert (0 < 10 ^ N.of_nat (Init.Nat.pred (String.length b)))%N
        by (apply N.neq_0_lt_0, N.pow_nonzero; lia). lia.
    - vm_compute in Vb. inversion Vb; subst n.
      assert (0 < 10 ^ N.of_nat (Init.Nat.pred (String.length a)))%N
        by (apply N.neq_0_lt_0, N.pow_nonzero; lia). lia.
    - destruct (Nat.lt_trichotomy (String.length a) (String.length b)) as [L | [E | L]];
        [exfalso | exact E | exfalso].
      + assert (10 ^ N.of_nat (String.length a)
                <= 10 ^ N.of_nat (Init.Nat.pred (String.length b)))%N
          by (apply N.pow_le_mono_r; lia). lia.
      + assert (10 ^ N.of_nat (String.length b)
                <= 10 ^ N.of_nat (Init.Nat.pred (String.length a)))%N
          by (apply N.pow_le_mono_r; lia). lia. }
  eapply digits_value_inj; eassumption.
Qed.

Lemma key_before_trans (ws : list string) (a b c : string) :
  key_before ws a b -> key_before ws b c -> key_before ws a c.
Proof.
  unfold key_before, occurs_before.
  destruct (Js.array_index a), (Js.array_index b), (Js.array_index c);
    try tauto; lia.
Qed.

Lemma outranks_trans (ws : list string) (a b c : string) :
  outranks ws a b -> outranks ws b c -> outranks ws a c.
Proof.
  unfold outranks. intros [H1 | [H1 K1]] [H2 | [H2 K2]]; try (left; lia).
  right. split; [lia | eapply key_before_trans; eassumption].
Qed.

Lemma is_index_true (e : string * Js.value) :
  Js.is_index e = true -> Js.array_index (fst e) = Some (Js.index_of e).
Proof.
  unfold Js.is_index, Js.index_of. destruct (Js.array_index (fst e)); [reflexivity | discriminate].
Qed.

Lemma is_index_false (e : string * Js.value) :
  Js.is_index e = false -> Js.array_index (fst e) = None.
Proof.
  unfold Js.is_index. destruct (Js.array_index (fst e)); [discriminate | reflexivity].
Qed.

Lemma Object_entries_sorted (ws : list string) (o : list (string * Js.value)) :
  StronglySorted (occurs_before ws) (map fst o) ->
  StronglySorted (fun a b => key_before ws (fst a) (fst b)) (Js.Object_entries o).
Proof.
  intros HS. apply StronglySorted_of_map_fst in HS.
  unfold Js.Object_entries. apply StronglySorted_app.
  - apply (sort_sorted _ (fun e => Js.is_index e = true)
             (fun a b => occurs_before ws (fst a) (fst b))).
    + intros x y Dx Dy Hafter. apply N.ltb_lt in Hafter.
      unfold key_before. now rewrite (is_index_true _ Dx), (is_index_true _ Dy).
    + intros x y Dx Dy Hafter Hocc. apply N.ltb_ge in Hafter.
      unfold key_before. rewrite (is_index_true _ Dx), (is_index_true _ Dy).
      destruct (N.eq_dec (Js.index_of x) (Js.index_of y)) as [Heq|]; [|lia].
      exfalso. apply is_index_true in Dx, Dy. rewrite Heq in Dx.
      rewrite (array_index_inj _ _ _ Dx Dy) in Hocc.
      unfold occurs_before in Hocc. lia.
    + intros x y z _ _ _. apply key_before_trans.
    + rewrite List.Forall_forall. intros e He. now apply filter_In in He.
    + now apply StronglySorted_filter_keeps.
  - eapply StronglySorted_weaken;
      [|apply StronglySorted_filter_keeps; exact HS].
    intros a b Ha Hb Hocc.
    apply filter_In in Ha as [_ Ha]. apply filter_In in Hb as [_ Hb].
    apply negb_true_iff in Ha, Hb.
    unfold key_before. now rewrite (is_index_false _ Ha), (is_index_false _ Hb).
  - intros a b Ha Hb.
    rewrite sort_In in Ha. apply filter_In in Ha as [_ Ha].
    apply filter_In in Hb as [_ Hb]. apply negb_true_iff in Hb.
    unfold key_before. now rewrite (is_index_true _ Ha), (is_index_false _ Hb).
Qed.

(** *** The ranking *)

(** Without the two inherited names among the kept words, the ranked keys
    are the distinct kept words, the more frequent first, ties in the
    enumeration order of the counter. *)
Lemma rankedKeywords_sorted (words : list string) :
  List.Forall (fun w => plain w = true) (List.filter keep_word words) ->
  StronglySorted (outranks (List.filter keep_word words))
    (map fst (rankedKeywords words)).
Proof.
  intros Hplain. set (kept := List.filter keep_word words) in *.
  apply StronglySorted_map_fst. unfold rankedKeywords.
  apply (sort_sorted _ (fun e => snd e = Js.VNum (frequency kept (fst e)))
           (fun a b => key_before kept (fst a) (fst b))).
  - intros x y Dx Dy Hafter. apply Z.ltb_lt in Hafter.
    unfold compareFn in Hafter. rewrite Dx, Dy in Hafter. simpl in Hafter.
    left. lia.
  - intros x y Dx Dy Hafter Hkey. apply Z.ltb_ge in Hafter.
    unfold compareFn in Hafter. rewrite Dx, Dy in Hafter. simpl in Hafter.
    unfold outranks.
    destruct (Nat.eq_dec (frequency kept (fst x)) (frequency kept (fst y)));
      [right; auto | left; lia].
  - intros x y z _ _ _. apply outranks_trans.
  - rewrite List.Forall_forall. intros e He.
    apply (Permutation_in _ (Permutation_sym (Object_entries_perm _))) in He.
    now apply dynamicKeywords_counts in He.
  - apply Object_entries_sorted. rewrite dynamicKeywords_keys.
    rewrite (filter_all not_proto) by now apply plain_not_proto.
    apply Set_of_sorted.
Qed.

Lemma rankedKeywords_NoDup (words : list string) :
  NoDup (map fst (rankedKeywords words)).
Proof.
  rewrite <- (Permutation_map fst (rankedKeywords_perm words)).
  rewrite dynamicKeywords_keys. apply Set_of_NoDup.
Qed.

Lemma topDynamicKeywords_firstn (words : list string) :
  topDynamicKeywords words = firstn 5 (map fst (rankedKeywords words)).
Proof. unfold topDynamicKeywords, Js.slice0. now rewrite firstn_map. Qed.

Lemma fold_Set_add_fresh (a s : list string) :
  NoDup (s ++ a) -> fold_left Js.Set_add a s = s ++ a.
Proof.
  revert s. induction a as [|x a IH]; intros s H; simpl.
  - now rewrite app_nil_r.
  - assert (Hx : existsb (String.eqb x) s = false).
    { destruct (existsb (String.eqb x) s) eqn:E; [|reflexivity].
      apply (Set_has_In s x) in E. apply NoDup_app in H as (_ & H & _).
      exfalso. apply (H x); [now apply list_elem_of_In | left]. }
    unfold Js.Set_add at 2. rewrite Hx.
    rewrite IH; rewrite <- app_assoc; [reflexivity | exact H].
Qed.

Lemma fold_Set_add_prefix (b s : list string) :
  exists rest, fold_left Js.Set_add b s = s ++ rest.
Proof.
  revert s. induction b as [|x b IH]; intros s; simpl.
  - exists []. now rewrite app_nil_r.
  - unfold Js.Set_add at 2. destruct (existsb (String.eqb x) s); [apply IH|].
    destruct (IH (s ++ [x])) as [rest ->]. exists (x :: rest).
    now rewrite <- app_assoc.
Qed.

Lemma topDynamicKeywords_NoDup (words : list string) :
  NoDup (topDynamicKeywords words).
Proof.
  rewrite topDynamicKeywords_firstn. apply (slice0_NoDup 5), rankedKeywords_NoDup.
Qed.

(** The dynamic keywords are the first entries of the result. *)
Lemma extractKeywords_starts_with_top (description : string) :
  firstn (length (topDynamicKeywords (words_of description)))
    (extractKeywords (Some description))
  = topDynamicKeywords (words_of description).
Proof.
  destruct (falsy (Some description)) eqn:F.
  - simpl in F. destruct (decide (description = "")) as [->|]; [reflexivity | discriminate].
  - rewrite extractKeywords_text by assumption. cbn [to_str].
    set (top := topDynamicKeywords (words_of description)).
    unfold Js.Set_of. rewrite fold_left_app.
    rewrite (fold_Set_add_fresh top []) by apply topDynamicKeywords_NoDup.
    destruct (fold_Set_add_prefix
                (List.filter (Js.Set_has predefinedKeywords) (words_of description))
                ([] ++ top)) as [rest ->].
    rewrite app_nil_l. unfold Js.slice0. rewrite firstn_firstn.
    assert (Hlen : (length top <= 5)%nat).
    { unfold top. rewrite topDynamicKeywords_firstn. apply firstn_le_length. }
    replace (Nat.min (length top) 10) with (length top) by lia.
    rewrite firstn_app, firstn_all, Nat.sub_diag, firstn_0. apply app_nil_r.
Qed.

(** C6, as stated, fails: in the description "cat 100" both words are kept
    and occur once, "cat" first, and yet "100" is ranked first, because the
    counting object enumerates a key that is an array index before every
    other key. *)
Lemma ranking_ignores_first_occurrence_of_numerals :
  kept_words "cat 100" = ["cat"; "100"]
  /\ frequency (kept_words "cat 100") "cat" = frequency (kept_words "cat 100") "100"
  /\ occurs_before (kept_words "cat 100") "cat" "100"
  /\ topDynamicKeywords (words_of "cat 100") = ["100"; "cat"]
  /\ ~ StronglySorted (outranks_spec (kept_words "cat 100"))
         (topDynamicKeywords (words_of "cat 100")).
Proof.
  repeat split; try reflexivity.
  - vm_compute. lia.
  - intros HS. apply StronglySorted_inv in HS as [_ HS].
    apply Forall_inv in HS. vm_compute in HS. lia.
Qed.

(** C6, amended.  For a description whose kept words (longer than two
    characters, no stopword) include neither [constructor] nor [__proto__]:
    the ranked words are the distinct kept words; a word is ranked before
    every less frequent one; equally frequent words are ranked in the
    enumeration order of the counting object, that is array-index numerals
    first by ascending value and then the other words by first occurrence;
    the dynamic keywords are the first five of that ranking, and they are
    the leading entries of the result of [extractKeywords].  When no kept
    word is an array-index numeral this is the ranking by frequency with
    ties in order of first occurrence; for "cat dog cat bird dog cat" it is
    cat, dog, bird. *)
Theorem dynamic_keywords_ranking (description : string) :
  forallb plain (kept_words description) = true ->
  List.NoDup (map fst (rankedKeywords (words_of description)))
  /\ (forall w, In w (map fst (rankedKeywords (words_of description)))
                <-> In w (kept_words description))
  /\ StronglySorted (outranks (kept_words description))
       (map fst (rankedKeywords (words_of description)))
  /\ topDynamicKeywords (words_of description)
     = firstn 5 (map fst (rankedKeywords (words_of description)))
  /\ firstn (length (topDynamicKeywords (words_of description)))
       (extractKeywords (Some description))
     = topDynamicKeywords (words_of description)
  /\ (forallb (fun w => negb (index_key w)) (kept_words description) = true ->
      StronglySorted (outranks_spec (kept_words description))
        (map fst (rankedKeywords (words_of description))))
  /\ topDynamicKeywords (words_of "cat dog cat bird dog cat") = ["cat"; "dog"; "bird"].
Proof.
  intros Hplain.
  assert (Hp : List.Forall (fun w => plain w = true) (kept_words description)).
  { rewrite List.Forall_forall. now apply forallb_forall. }
  assert (Hin : forall w, In w (map fst (rankedKeywords (words_of description)))
                          <-> In w (kept_words description)).
  { intros w. rewrite rankedKeywords_keys_In.
    fold (kept_words description).
    now rewrite (filter_all not_proto) by now apply plain_not_proto. }
  assert (HS := rankedKeywords_sorted (words_of description) Hp).
  split; [apply NoDup_ListNoDup, rankedKeywords_NoDup|].
  split; [exact Hin|].
  split; [exact HS|].
  split; [apply topDynamicKeywords_firstn|].
  split; [apply extractKeywords_starts_with_top|].
  split; [|reflexivity].
  intros Hnum. eapply StronglySorted_weaken; [|exact HS].
  intros a b Ha Hb. apply Hin in Ha, Hb.
  rewrite forallb_forall in Hnum.
  pose proof (Hnum a Ha) as Na. pose proof (Hnum b Hb) as Nb.
  unfold index_key in Na, Nb. unfold outranks, outranks_spec, key_before.
  destruct (Js.array_index a); [discriminate|].
  destruct (Js.array_index b); [discriminate|]. tauto.
Qed.

Lemma dynamic_keywords_ranking_witness :
  StronglySorted (outranks (kept_words "dog 20 cat 100 dog 3000"))
    (map fst (rankedKeywords (words_of "dog 20 cat 100 dog 3000")))
  /\ topDynamicKeywords (words_of "dog 20 cat 100 dog 3000")
     = firstn 5 (map fst (rankedKeywords (words_of "dog 20 cat 100 dog 3000"))).
Proof.
  pose proof (dynamic_keywords_ranking "dog 20 cat 100 dog 3000") as H.
  destruct H as (_ & _ & HS & Htop & _); [reflexivity|].
  split; assumption.
Defined.

(** ** The posting mapper *)





(** *** The fallback link *)

Lemma append_assoc (a b c : string) : (a +:+ b) +:+ c = a +:+ b +:+ c.
Proof.
  induction a as [|x a IH]; [reflexivity|].
  change (String x ((a +:+ b) +:+ c) = String x (a +:+ b +:+ c)). now rewrite IH.
Qed.










(** ** The result cache *)

Module CacheFacts.
Import ResultCache.

Lemma filter_comm {A : Type} (f g : A -> bool) (l : list A) :
  List.filter f (List.filter g l) = List.filter g (List.filter f l).
Proof.
  induction l as [|x l IH]; simpl; [reflexivity|].
  destruct (f x) eqn:F, (g x) eqn:G; simpl; rewrite ?F, ?G, IH; reflexivity.
Qed.

Lemma expire_all_lookup (l : list (Z * string))
  (st : gmap string (list (option RawPosting))) (key : string) :
  fold_left expire l st !! key
  = if existsb (for_key key) l then None else st !! key.
Proof.
  revert st. induction l as [|tm l IH]; intros st; simpl; [reflexivity|].
  rewrite IH. unfold expire, for_key at 2.
  destruct (String.eqb key (snd tm)) eqn:E; simpl.
  - apply String.eqb_eq in E. subst key.
    rewrite lookup_delete_eq. now destruct (existsb _ l).
  - apply String.eqb_neq in E. rewrite lookup_delete_ne by congruence. reflexivity.
Qed.

Lemma existsb_filter_nil {A : Type} (f : A -> bool) (l : list A) :
  List.filter f l = [] -> existsb f l = false.
Proof.
  induction l as [|x l IH]; simpl; [reflexivity|].
  destruct (f x); [discriminate | auto].
Qed.

Lemma lifetime_put (key : string) (value : list (option RawPosting)) (c : state) :
  pending_for key c = [] ->
  lifetime key value (now c + ttl) (fired_for key c) (put key value c).
Proof.
  intros Hp. left. unfold put, pending_for, fired_for; simpl.
  split; [unfold ttl; lia|]. split; [apply lookup_insert_eq|]. split; [|reflexivity].
  rewrite List.filter_app. fold (pending_for key c). rewrite Hp.
  unfold for_key. simpl. now rewrite String.eqb_refl.
Qed.

Lemma lifetime_advance (key : string) (value : list (option RawPosting))
  (deadline : Z) (before : list (Z * string)) (t : Z) (c : state) :
  lifetime key value deadline before c ->
  lifetime key value deadline before (advance t c).
Proof.
  intros H. unfold advance. destruct (t <=? now c) eqn:Ht; [assumption|].
  apply Z.leb_gt in Ht.
  assert (Hdue : List.filter (for_key key) (List.filter (due t) (timers c))
                 = List.filter (due t) (pending_for key c))
    by apply filter_comm.
  assert (Hrest : List.filter (for_key key)
                    (List.filter (fun tm => negb (due t tm)) (timers c))
                  = List.filter (fun tm => negb (due t tm)) (pending_for key c))
    by apply filter_comm.
  destruct H as [(Hnow & Hst & Hp & Hf) | (Hnow & Hst & Hp & Hf)].
  - rewrite Hp in Hdue, Hrest.
    change (List.filter (due t) [(deadline, key)])
      with (if deadline <=? t then [(deadline, key)] else []) in Hdue.
    change (List.filter (fun tm => negb (due t tm)) [(deadline, key)])
      with (if negb (deadline <=? t) then [(deadline, key)] else []) in Hrest.
    destruct (deadline <=? t) eqn:Hd; simpl in Hrest.
    + apply Z.leb_le in Hd. right. unfold pending_for, fired_for. simpl.
      split; [assumption|]. split; [|split].
      * rewrite expire_all_lookup.
        destruct (existsb (for_key key) (List.filter (due t) (timers c))) eqn:E;
          [reflexivity|].
        rewrite <- not_true_iff_false, existsb_exists in E. exfalso. apply E.
        exists (deadline, key). split.
        -- assert (Hin : In (deadline, key) (List.filter (for_key key)
                                               (List.filter (due t) (timers c))))
             by (rewrite Hdue; simpl; auto).
           now apply filter_In in Hin.
        -- unfold for_key. simpl. apply String.eqb_refl.
      * exact Hrest.
      * rewrite List.filter_app. fold (fired_for key c).
        unfold for_key in Hdue |- *. now rewrite Hf, Hdue.
    + apply Z.leb_gt in Hd. left. unfold pending_for, fired_for. simpl.
      split; [assumption|]. split; [|split].
      * rewrite expire_all_lookup, existsb_filter_nil; assumption.
      * exact Hrest.
      * rewrite List.filter_app. fold (fired_for key c).
        unfold for_key in Hdue |- *. now rewrite Hf, Hdue, app_nil_r.
  - rewrite Hp in Hdue, Hrest.
    change (List.filter (due t) []) with (@nil (Z * string)) in Hdue.
    change (List.filter (fun tm => negb (due t tm)) []) with (@nil (Z * string)) in Hrest.
    right. unfold pending_for, fired_for. simpl.
    split; [lia|]. split; [|split].
    + rewrite expire_all_lookup, existsb_filter_nil; assumption.
    + exact Hrest.
    + rewrite List.filter_app. fold (fired_for key c).
      unfold for_key in Hdue |- *. now rewrite Hf, Hdue, app_nil_r.
Qed.



End CacheFacts.

Lemma get_handler_cache (id : nat) (r : request) (s : server) :
  cache (get_handler id r s) = cache s.
Proof.
  unfold get_handler. destruct (ResultCache.get _ (cache s)); [reflexivity|].
  destruct (falsy (keyword r)); [reflexivity|].
  destruct (falsy (SERPAPI_KEY s)); reflexivity.
Qed.

Lemma all_handler_cache (id : nat) (r : request) (s : server) :
  cache (all_handler id r s) = cache s.
Proof.
  unfold all_handler. destruct (falsy (keyword r)); [reflexivity|].
  destruct (falsy (SERPAPI_KEY s)); reflexivity.
Qed.

Lemma resume_all_cache (id : nat) (u : upstream_result) (s : server) :
  cache (resume_all id u s) = cache s.
Proof.
  unfold resume_all. destruct u as [data | message response_error]; [|reflexivity].
  destruct (all_success data) as [b | [message]]; reflexivity.
Qed.

(** The cache of the server changes by cache operations only. *)
Lemma step_cache (s : server) (e : event) :
  cache (step s e) = ResultCache.run (cache_ops s e) (cache s).
Proof.
  destruct e as [id r | id u | t]; simpl.
  - unfold route.
    destruct (req_method r); simpl;
      auto using get_handler_cache, all_handler_cache.
  - destruct (take_awaiting id (awaiting s)) as [[k rest]|] eqn:T.
    + destruct k as [key|].
      * destruct u as [data | message response_error]; reflexivity.
      * rewrite resume_all_cache. destruct u; reflexivity.
    + destruct u; reflexivity.
  - reflexivity.
Qed.

Lemma run_cache (events : list event) (s : server) :
  cache (run events s) = ResultCache.run (cache_trace events s) (cache s).
Proof.
  revert s. induction events as [|e events IH]; intros s; simpl; [reflexivity|].
  unfold run in *. simpl. rewrite IH, step_cache.
  unfold ResultCache.run. now rewrite fold_left_app.
Qed.




(** The general form of the defect behind C2: a timer deletes by key alone.
    When a second value is put under a key whose first timer is pending,
    then from the first deadline on the key is absent, although the second
    deadline has not been reached. *)
Lemma stale_timer_deletes_newer_entry
  (c : ResultCache.state) (key : string) (v1 v2 : list (option RawPosting)) (t2 t : Z) :
  ResultCache.now c < t2 ->
  t2 < ResultCache.now c + ResultCache.ttl ->
  ResultCache.now c + ResultCache.ttl <= t ->
  t < t2 + ResultCache.ttl ->
  ResultCache.get key
    (ResultCache.advance t
       (ResultCache.put key v2
          (ResultCache.advance t2 (ResultCache.put key v1 c)))) = None.
Proof.
  intros H1 H2 H3 H4.
  set (c1 := ResultCache.advance t2 (ResultCache.put key v1 c)).
  assert (Hnow : ResultCache.now c1 = t2).
  { unfold c1, ResultCache.advance. simpl.
    destruct (t2 <=? ResultCache.now c) eqn:E; [apply Z.leb_le in E; lia | reflexivity]. }
  assert (Hin : In (ResultCache.now c + ResultCache.ttl, key) (ResultCache.timers c1)).
  { unfold c1, ResultCache.advance. simpl.
    destruct (t2 <=? ResultCache.now c) eqn:E; [apply Z.leb_le in E; lia|]. simpl.
    apply filter_In. split; [apply in_app_iff; right; simpl; auto|].
    unfold ResultCache.due. simpl. apply negb_true_iff, Z.leb_gt. lia. }
  unfold ResultCache.get, ResultCache.advance. simpl. rewrite Hnow.
  destruct (t <=? t2) eqn:E; [apply Z.leb_le in E; unfold ResultCache.ttl in *; lia|].
  simpl. rewrite CacheFacts.expire_all_lookup.
  destruct (existsb _ _) eqn:Ex; [reflexivity|].
  rewrite <- not_true_iff_false, existsb_exists in Ex. exfalso. apply Ex.
  exists (ResultCache.now c + ResultCache.ttl, key). split.
  - apply filter_In. split; [apply in_app_iff; left; assumption|].
    unfold ResultCache.due. simpl. now apply Z.leb_le.
  - unfold ResultCache.for_key. simpl. apply String.eqb_refl.
Qed.

(** ** The routes *)

(** The route of [app.all] validates first: a request without keyword gets
    the 400 answer and nothing else happens. *)
Lemma all_handler_rejects_missing_keyword (id : nat) (r : request) (s : server) :
  falsy (keyword r) = true ->
  all_handler id r s = emit [Respond id bad_request] s.
Proof. unfold all_handler. now intros ->. Qed.

(** The route of [app.get] looks into the cache first: only on a miss does
    a request without keyword get the 400 answer. *)
Lemma get_handler_rejects_missing_keyword_on_miss (id : nat) (r : request) (s : server) :
  falsy (keyword r) = true ->
  ResultCache.get (cacheKey (keyword r) (req_location r)) (cache s) = None ->
  get_handler id r s
  = emit [CacheHas (cacheKey (keyword r) (req_location r)) false;
          Respond id bad_request] s.
Proof. unfold get_handler. now intros -> ->. Qed.

Lemma get_handler_serves_hit (id : nat) (r : request) (s : server)
  (jobs : list (option RawPosting)) :
  ResultCache.get (cacheKey (keyword r) (req_location r)) (cache s) = Some jobs ->
  get_handler id r s
  = emit [CacheHas (cacheKey (keyword r) (req_location r)) true;
          CacheGet (cacheKey (keyword r) (req_location r));
          Respond id {| status := 200; json := RawJobs jobs |}] s.
Proof. unfold get_handler. now intros ->. Qed.

(** C1 fails on the route of [app.get], which looks into the cache before it
    validates: even on a fresh server the lookup precedes the 400 answer.
    After a search for the word "undefined" has been cached, a GET request
    without keyword derives the same key "undefined-undefined" and is
    answered 200 with the cached postings instead of 400. *)
Theorem keywordless_request_served_from_cache :
  falsy (keyword (query GET None None)) = true
  /\ log (run [Request 1 (query GET None None)] (boot (Some "secret")))
     = [CacheHas "undefined-undefined" false; Respond 1 bad_request]
  /\ log (run [Request 1 (query GET (Some "undefined") None);
               Reply 1 (reply_with [posting "A"]);
               Request 2 (query GET None None)] (boot (Some "secret")))
     = [CacheHas "undefined-undefined" false;
        AxiosGet 1 {| engine := "google_jobs"; q := "undefined";
                      search_location := "United States"; api_key := "secret";
                      page_token := None |};
        CacheSet "undefined-undefined";
        SetTimeout "undefined-undefined" 3600000;
        Respond 1 {| status := 200; json := RawJobs [posting "A"] |};
        CacheHas "undefined-undefined" true;
        CacheGet "undefined-undefined";
        Respond 2 {| status := 200; json := RawJobs [posting "A"] |}].
Proof. repeat split; reflexivity. Qed.

(** C2 fails.  Two GET requests for the same query both miss the cache and
    both call the provider.  The first reply is stored at time 10, the
    second at time 20, replacing it.  When the clock reaches 3600010 the
    timer of the first entry deletes the key: the second entry, due to live
    until 3600020, is gone. *)
Theorem stale_timer_evicts_newer_entry :
  ResultCache.get "nurse-Texas"
    (cache (run [Request 1 (query GET (Some "nurse") (Some "Texas"));
                 Request 2 (query GET (Some "nurse") (Some "Texas"));
                 Tick 10; Reply 1 (reply_with [posting "A"]);
                 Tick 20; Reply 2 (reply_with [posting "B"])] (boot (Some "secret"))))
  = Some [posting "B"]
  /\ ResultCache.timers
       (cache (run [Request 1 (query GET (Some "nurse") (Some "Texas"));
                    Request 2 (query GET (Some "nurse") (Some "Texas"));
                    Tick 10; Reply 1 (reply_with [posting "A"]);
                    Tick 20; Reply 2 (reply_with [posting "B"])] (boot (Some "secret"))))
     = [(3600010, "nurse-Texas"); (3600020, "nurse-Texas")]
  /\ ResultCache.get "nurse-Texas"
       (cache (run [Request 1 (query GET (Some "nurse") (Some "Texas"));
                    Request 2 (query GET (Some "nurse") (Some "Texas"));
                    Tick 10; Reply 1 (reply_with [posting "A"]);
                    Tick 20; Reply 2 (reply_with [posting "B"]);
                    Tick 3600010] (boot (Some "secret"))))
     = None
  /\ 3600010 < 20 + ResultCache.ttl.
Proof. repeat split; vm_compute; reflexivity. Qed.





(** ** Scenarios of the specification *)

Example tokenize_splits_at_non_word_characters :
  WordTokenizer.tokenize "  don't panic: 42 x_y." = ["don"; "t"; "panic"; "42"; "x_y"].
Proof. reflexivity. Qed.

Example extractKeywords_of_nothing :
  extractKeywords None = [] /\ extractKeywords (Some "") = [].
Proof. split; reflexivity. Qed.

Example extractKeywords_merges_ranked_and_curated :
  extractKeywords
    (Some "The faculty seeks a professor; the professor will support Faculty research and teaching.")
  = ["faculty"; "professor"; "seeks"; "support"; "research"; "teaching"].
Proof. reflexivity. Qed.

(** A query for nurses in Texas misses the cache and calls the provider
    once; the reply is stored under "nurse-Texas"; the same query half an
    hour later is served from the cache without a second call. *)
Example second_query_within_the_hour_is_served_from_cache :
  log (run [Request 1 (query GET (Some "nurse") (Some "Texas"));
            Tick 250; Reply 1 (reply_with [posting "Nurse"]);
            Tick 1800000;
            Request 2 (query GET (Some "nurse") (Some "Texas"))] (boot (Some "secret")))
  = [CacheHas "nurse-Texas" false;
     AxiosGet 1 {| engine := "google_jobs"; q := "nurse"; search_location := "Texas";
                   api_key := "secret"; page_token := None |};
     CacheSet "nurse-Texas";
     SetTimeout "nurse-Texas" 3600000;
     Respond 1 {| status := 200; json := RawJobs [posting "Nurse"] |};
     CacheHas "nurse-Texas" true;
     CacheGet "nurse-Texas";
     Respond 2 {| status := 200; json := RawJobs [posting "Nurse"] |}].
Proof. reflexivity. Qed.

(** The other methods reach the route of [app.all], which maps the postings
    and drops the one without description. *)
Example post_request_maps_postings :
  responses (run [Request 1 (query POST (Some "dean") None);
                  Reply 1 (Fulfilled {| jobs_results :=
                                          Some [posting "Dean";
                                                Some {| title := Some "Ghost";
                                                        company_name := None;
                                                        location := None; salary := None;
                                                        description := None;
                                                        related_links := None |}];
                                        total_results := Some 2%nat;
                                        next_token := Some "next" |})]
               (boot (Some "secret")))
  = [(1%nat,
      {| status := 200;
         json := Jobs (Some [ {| company := Some "Example University";
                                 role := Some "Dean";
                                 job_location := "Not specified";
                                 job_salary := "Not provided";
                                 url := "https://www.google.com/search?q=Dean%20Example%20University%20site%3Ahigheredjobs.com%20OR%20site%3Alinkedin.com%20OR%20site%3Aedjoin.org";
                                 ats_keywords := ["teaching"; "research"] |} ])
                   2 (Some "next") |})].
Proof. reflexivity. Qed.

(** * Further properties *)

(** ** Keyword extraction *)

Lemma curated_words_are_kept (k : string) :
  In k predefinedKeywords -> keep_word k = true /\ not_proto k = true.
Proof.
  intros H.
  assert (Hall : forallb (fun w => keep_word w && not_proto w) predefinedKeywords = true)
    by reflexivity.
  rewrite forallb_forall in Hall. now apply andb_true_iff, Hall.
Qed.

Lemma extractKeywords_origin (text k : string) :
  In k (extractKeywords (Some text)) ->
  In k (List.filter not_proto (kept_words text)).
Proof.
  destruct (falsy (Some text)) eqn:F.
  - rewrite extractKeywords_falsy by assumption. intros [].
  - rewrite extractKeywords_text by assumption. cbn [to_str]. intros H.
    apply slice0_In in H. rewrite Set_of_In in H.
    apply in_app_iff in H as [H | H].
    + unfold topDynamicKeywords in H. apply in_map_iff in H as [e [<- He]].
      apply slice0_In in He. apply (in_map fst) in He.
      now apply rankedKeywords_keys_In in He.
    + apply filter_In in H as [Hw Hc]. apply Set_has_In in Hc.
      apply curated_words_are_kept in Hc as [Hk Hp].
      apply filter_In. split; [|assumption].
      unfold kept_words. apply filter_In. auto.
Qed.



Lemma lower_char_idem (c : ascii) : lower_char (lower_char c) = lower_char c.
Proof. destruct c as [[] [] [] [] [] [] [] []]; reflexivity. Qed.

Lemma toLowerCase_idem (s : string) : toLowerCase (toLowerCase s) = toLowerCase s.
Proof.
  induction s as [|c s IH]; simpl; [reflexivity|]. now rewrite lower_char_idem, IH.
Qed.

(** X2.  The extraction does not depend on letter case: a description and
    its lowercased form give the same keywords. *)
Theorem extractKeywords_ignores_case (text : string) :
  extractKeywords (Some (toLowerCase text)) = extractKeywords (Some text).
Proof.
  destruct text as [|c text]; [reflexivity|].
  rewrite !extractKeywords_text by reflexivity. cbn [to_str].
  unfold words_of. now rewrite toLowerCase_idem.
Qed.

Lemma slice0_short {A : Type} (n : nat) (l : list A) :
  (length (Js.slice0 n l) < n)%nat -> Js.slice0 n l = l.
Proof.
  unfold Js.slice0. rewrite length_firstn. intros H.
  apply firstn_all2. lia.
Qed.

(** X3.  A curated word that occurs in the description is among the
    keywords whenever fewer than ten keywords are returned: only the
    truncation to ten can drop it. *)
Theorem curated_word_is_extracted_when_room (text k : string) :
  In k (words_of text) ->
  In k predefinedKeywords ->
  (length (extractKeywords (Some text)) < 10)%nat ->
  In k (extractKeywords (Some text)).
Proof.
  intros Hw Hc Hlen.
  assert (F : falsy (Some text) = false).
  { destruct text; [destruct Hw | reflexivity]. }
  rewrite extractKeywords_text in * by assumption. cbn [to_str] in *.
  rewrite slice0_short by assumption.
  apply Set_of_In, in_app_iff. right. apply filter_In. split; [assumption|].
  now apply Set_has_In.
Qed.

Lemma curated_word_is_extracted_when_room_witness :
  In "tenure" (extractKeywords (Some "Apply now: a tenure track position, tenure in six years")).
Proof.
  apply (curated_word_is_extracted_when_room
           "Apply now: a tenure track position, tenure in six years" "tenure").
  - apply Set_has_In. reflexivity.
  - apply Set_has_In. reflexivity.
  - vm_compute. lia.
Defined.

Lemma top_word_in_result (text k : string) :
  In k (topDynamicKeywords (words_of text)) ->
  In k (extractKeywords (Some text)).
Proof.
  intros H. rewrite <- (extractKeywords_starts_with_top text) in H.
  revert H. generalize (length (topDynamicKeywords (words_of text))).
  generalize (extractKeywords (Some text)). intros l n. apply (slice0_In n l k).
Qed.

Lemma rankedKeywords_length (words : list string) :
  length (rankedKeywords words)
  = length (Js.Set_of (List.filter not_proto (List.filter keep_word words))).
Proof.
  rewrite <- (Permutation_length (rankedKeywords_perm words)).
  rewrite <- dynamicKeywords_keys. now rewrite length_map.
Qed.

(** X4.  When a description has at most five distinct words worth counting
    (longer than two characters, no stopword, not [__proto__]), each of them
    is returned as a keyword. *)
Theorem few_words_are_all_extracted (text k : string) :
  In k (List.filter not_proto (kept_words text)) ->
  (length (Js.Set_of (List.filter not_proto (kept_words text))) <= 5)%nat ->
  In k (extractKeywords (Some text)).
Proof.
  intros Hk Hlen. apply top_word_in_result.
  rewrite topDynamicKeywords_firstn, firstn_all2.
  - now apply rankedKeywords_keys_In.
  - rewrite length_map, rankedKeywords_length. exact Hlen.
Qed.

Lemma few_words_are_all_extracted_witness :
  In "seeks" (extractKeywords (Some "The college seeks a registrar")).
Proof.
  apply (few_words_are_all_extracted "The college seeks a registrar" "seeks").
  - apply Set_has_In. reflexivity.
  - vm_compute. lia.
Defined.

Lemma nil_or_In {A : Type} (l : list A) : l = [] \/ exists x, In x l.
Proof. destruct l as [|x l]; [now left | right; exists x; now left]. Qed.

(** X5.  No keyword is returned exactly when the description has no word
    worth counting: every word has at most two characters, is a stopword, or
    is [__proto__]. *)
Theorem extractKeywords_empty_iff (text : string) :
  extractKeywords (Some text) = []
  <-> List.filter not_proto (kept_words text) = [].
Proof.
  split.
  - intros Hout. destruct (nil_or_In (List.filter not_proto (kept_words text)))
      as [Hnil | [w Hw]]; [assumption|]. exfalso.
    apply rankedKeywords_keys_In in Hw.
    assert (Htop : exists k, In k (topDynamicKeywords (words_of text))).
    { rewrite topDynamicKeywords_firstn.
      destruct (map fst (rankedKeywords (words_of text))) as [|k l]; [destruct Hw|].
      exists k. now left. }
    destruct Htop as [k Hk]. apply top_word_in_result in Hk.
    rewrite Hout in Hk. destruct Hk.
  - intros Hnil. destruct (nil_or_In (extractKeywords (Some text))) as [H | [k Hk]];
      [assumption|].
    apply extractKeywords_origin in Hk. rewrite Hnil in Hk. destruct Hk.
Qed.

Lemma extractKeywords_empty_iff_witness :
  extractKeywords (Some "To be, or not to be: it is up to us!") = [].
Proof.
  apply (proj2 (extractKeywords_empty_iff "To be, or not to be: it is up to us!")).
  reflexivity.
Defined.

(** X6.  The word [__proto__] is never returned as a keyword, however often
    the description repeats it: the counter never gets a key of that name,
    and the curated vocabulary does not have it. *)
Theorem proto_is_never_extracted (description : option string) :
  ~ In "__proto__" (extractKeywords description).
Proof.
  destruct description as [text|]; [|intros []].
  intros H. apply extractKeywords_origin in H.
  apply filter_In in H as [_ H]. discriminate H.
Qed.

Lemma own_count_word_other (acc : list (string * Js.value)) (x w : string) :
  String.eqb w x = false -> Js.own (count_word acc x) w = Js.own acc w.
Proof.
  intros H. unfold count_word, Js.set.
  destruct (String.eqb x "__proto__"); [reflexivity|].
  now rewrite own_put_own, H.
Qed.

Lemma fold_count_word_constructor (rest p : list string)
  (acc : list (string * Js.value)) :
  Js.own acc "constructor" = constructor_count (frequency p "constructor") ->
  Js.own (fold_left count_word rest acc) "constructor"
  = constructor_count (frequency (p ++ rest) "constructor").
Proof.
  revert p acc. induction rest as [|x rest IH]; intros p acc Hacc; simpl.
  - now rewrite app_nil_r.
  - replace (p ++ x :: rest) with ((p ++ [x]) ++ rest) by now rewrite <- app_assoc.
    apply IH. rewrite frequency_snoc.
    destruct (String.eqb "constructor" x) eqn:E.
    + apply String.eqb_eq in E. subst x.
      unfold count_word, Js.set, Js.get.
      change (String.eqb "constructor" "__proto__") with false. cbv iota.
      rewrite own_put_own, String.eqb_refl, Hacc.
      replace (frequency p "constructor" + 1)%nat
        with (S (frequency p "constructor")) by lia.
      destruct (frequency p "constructor") as [|n]; [reflexivity|].
      unfold constructor_count, bump.
      assert (Hne : String.eqb (Object_source +:+ ones (S n)) "" = false)
        by reflexivity.
      rewrite Hne.
      change (ones (S (S n))) with (ones (S n) +:+ "1").
      now rewrite append_assoc.
    + rewrite own_count_word_other by assumption.
      now rewrite Nat.add_0_r.
Qed.

(** X7.  The word [constructor] is not ranked by its frequency.  The count
    that the counter keeps for it is no number but the text of the function
    [Object] followed by one 1 for each occurrence, so the comparator of the
    sort treats it as equal to every other word. *)
Theorem constructor_is_not_ranked_by_frequency
  (words : list string) (e x : string * Js.value) :
  In e (dynamicKeywords words) ->
  fst e = "constructor" ->
  snd e = Js.VStr (Object_source
                   +:+ ones (frequency (List.filter keep_word words) "constructor"))
  /\ compareFn e x = 0
  /\ compareFn x e = 0.
Proof.
  intros He Hk.
  assert (Hnd : NoDup (map fst (dynamicKeywords words)))
    by (rewrite dynamicKeywords_keys; apply Set_of_NoDup).
  destruct e as [k v]. simpl in Hk. subst k.
  pose proof (own_of_In _ _ _ Hnd He) as Hown.
  unfold dynamicKeywords in Hown.
  rewrite (fold_count_word_constructor _ [] []) in Hown by reflexivity.
  simpl app in Hown. unfold constructor_count in Hown.
  destruct (frequency (List.filter keep_word words) "constructor") as [|n];
    [discriminate|].
  inversion Hown; subst v. cbn [snd].
  split; [reflexivity|].
  unfold compareFn. cbn [snd Js.to_number].
  split; [now destruct (Js.to_number (snd x)) | reflexivity].
Qed.

Lemma constructor_is_not_ranked_by_frequency_witness :
  compareFn ("constructor", Js.VStr "function Object() { [native code] }11")
            ("cat", Js.VNum 5) = 0.
Proof.
  apply (constructor_is_not_ranked_by_frequency
           (words_of "constructor cat constructor cat cat cat cat")
           ("constructor", Js.VStr "function Object() { [native code] }11")
           ("cat", Js.VNum 5)).
  - vm_compute. left. reflexivity.
  - reflexivity.
Defined.

(** ** The posting mapper *)







Lemma or_else_nonempty (v : option string) (d : string) : d <> "" -> or_else v d <> "".
Proof.
  intros Hd. unfold or_else. destruct v as [s|]; [|assumption].
  destruct (decide (s = "")); assumption.
Qed.





Lemma map_outcome_mapJob_described (l : list (option RawPosting))
  (ms : list (option JobRecord)) :
  map_outcome mapJob l = Returned ms ->
  Forall2 (fun r job => mapJob (Some job) = Returned (Some r))
    (filter_Boolean ms) (described l).
Proof.
  revert ms. induction l as [|j l IH]; intros ms; simpl.
  - intros H. inversion H. constructor.
  - destruct (mapJob j) as [m|e] eqn:M; simpl; [|discriminate].
    destruct (map_outcome mapJob l) as [ms'|e]; simpl; [|discriminate].
    intros H. inversion H; subst ms; clear H. specialize (IH ms' eq_refl).
    destruct j as [job|]; simpl in M.
    + destruct (falsy (description job)) eqn:F.
      * inversion M; subst m. exact IH.
      * destruct m as [r|].
        -- simpl. constructor; [|exact IH]. unfold mapJob. now rewrite F.
        -- destruct (applyLink job); simpl in M; discriminate.
    + inversion M; subst m. exact IH.
Qed.

(** X11.  When the mapping of a result list returns, it returns one record
    for each posting that has a description, in the order of the postings,
    with the posting's title as role and its company name as company;
    entries that are [null] or have no description leave no trace. *)
Theorem mapJobs_maps_the_described_postings
  (l : list (option RawPosting)) (rs : list JobRecord) :
  mapJobs l = Returned rs ->
  map role rs = map title (described l)
  /\ map company rs = map company_name (described l)
  /\ map ats_keywords rs = map (fun job => extractKeywords (description job)) (described l)
  /\ (length rs <= length l)%nat.
Proof.
  unfold mapJobs. destruct (map_outcome mapJob l) as [ms|e] eqn:M; [|discriminate].
  intros H. inversion H; subst rs; clear H.
  apply map_outcome_mapJob_described in M.
  assert (Hlen : (length (described l) <= length l)%nat).
  { clear. induction l as [|[job|] l IH]; simpl; [lia | | lia].
    destruct (falsy (description job)); simpl; lia. }
  rewrite <- (Forall2_length _ _ _ M) in Hlen.
  split; [|split; [|split; [|exact Hlen]]];
    clear Hlen; induction M as [|r job rs' js Hr _ IH]; simpl; try reflexivity;
    rewrite IH; f_equal;
    unfold mapJob in Hr; destruct (falsy (description job)); try discriminate;
    destruct (applyLink job); simpl in Hr; try discriminate;
    inversion Hr; reflexivity.
Qed.

Lemma mapJobs_maps_the_described_postings_witness :
  map role [ {| company := Some "Example University"; role := Some "Dean";
                job_location := "Not specified"; job_salary := "Not provided";
                url := "https://www.google.com/search?q=Dean%20Example%20University%20site%3Ahigheredjobs.com%20OR%20site%3Alinkedin.com%20OR%20site%3Aedjoin.org";
                ats_keywords := ["teaching"; "research"] |} ]
  = map title (described [None; posting "Dean";
                          Some {| title := Some "Ghost"; company_name := None;
                                  location := None; salary := None;
                                  description := Some ""; related_links := None |}]).
Proof.
  apply (mapJobs_maps_the_described_postings
           [None; posting "Dean";
            Some {| title := Some "Ghost"; company_name := None;
                    location := None; salary := None;
                    description := Some ""; related_links := None |}]).
  reflexivity.
Defined.




(** ** Answers of the route of [app.all] *)

(** X13.  In a 200 answer of the route of [app.all]: [total_results] is the
    figure of the provider whenever that is positive, even when postings
    were dropped, and otherwise the number of records returned; the records
    are no more than the postings received; the page token is never the
    empty string. *)
Theorem all_route_answer_totals (data : upstream_data) (b : body) :
  all_success data = Returned b ->
  exists jobs total next,
    b = Jobs jobs total next
    /\ (forall n, total_results data = Some (S n) -> total = S n)
    /\ (total_results data = None \/ total_results data = Some O ->
        exists rs, jobs = Some rs /\ total = length rs)
    /\ (forall rs l, jobs = Some rs -> jobs_results data = Some l ->
          (length rs <= length l)%nat)
    /\ (jobs = None <-> jobs_results data = None)
    /\ next <> Some "".
Proof.
  unfold all_success.
  assert (Hnext : (if falsy (next_token data) then None else next_token data) <> Some "").
  { destruct (next_token data) as [n|]; simpl; [|discriminate].
    destruct (decide (n = "")); congruence. }
  destruct (jobs_results data) as [l|] eqn:J.
  - destruct (mapJobs l) as [rs|e] eqn:M; simpl; [|discriminate].
    assert (Hlen : (length rs <= length l)%nat).
    { unfold mapJobs in M. destruct (map_outcome mapJob l) as [ms|] eqn:MM; [|discriminate].
      inversion M; subst rs. apply map_outcome_mapJob_described in MM.
      rewrite (Forall2_length _ _ _ MM).
      clear. induction l as [|[job|] l IH]; simpl; [lia | | lia].
      destruct (falsy (description job)); simpl; lia. }
    destruct (total_results data) as [[|n]|]; simpl; intros H; inversion H; subst b;
      do 3 eexists; (split; [reflexivity|]);
      (split; [intros m Hm; congruence|]);
      (split; [intros [Ht | Ht]; try discriminate Ht; eauto|]);
      (split; [intros rs' l' Hr Hl; congruence|]);
      (split; [split; discriminate | exact Hnext]).
  - simpl. destruct (total_results data) as [[|n]|]; simpl; intros H; inversion H; subst b.
    do 3 eexists. split; [reflexivity|].
    split; [intros m Hm; congruence|].
    split; [intros [Ht | Ht]; discriminate Ht|].
    split; [intros rs' l' Hr; discriminate Hr|].
    split; [tauto | exact Hnext].
Qed.

Lemma all_route_answer_totals_witness :
  exists jobs total next,
    Jobs (Some []) 57 (Some "page-2") = Jobs jobs total next
    /\ (forall n, Some 57%nat = Some (S n) -> total = S n).
Proof.
  destruct (all_route_answer_totals
              {| jobs_results := Some [None]; total_results := Some 57%nat;
                 next_token := Some "page-2" |}
              (Jobs (Some []) 57 (Some "page-2")) eq_refl)
    as (jobs & total & next & Hb & Ht & _).
  exists jobs, total, next. split; [exact Hb | exact Ht].
Defined.

(** ** The event loop *)

Lemma responses_emit (es : list effect) (s : server) :
  responses (emit es s)
  = responses s
    ++ omap (fun e => match e with Respond id r => Some (id, r) | _ => None end) es.
Proof. unfold responses, emit. simpl. apply omap_app. Qed.

Lemma take_awaiting_length (id : nat) (l : list (nat * continuation))
  (k : continuation) (rest : list (nat * continuation)) :
  take_awaiting id l = Some (k, rest) -> length l = S (length rest).
Proof.
  revert k rest. induction l as [|[id' k'] l IH]; intros k rest; simpl; [discriminate|].
  destruct (Nat.eqb id id').
  - intros H. now inversion H.
  - destruct (take_awaiting id l) as [[k1 r1]|]; simpl; [|discriminate].
    intros H. inversion H; subst. simpl. f_equal. now eapply IH.
Qed.

(** X14.  A reply of the provider without [jobs_results] is no error for
    the route of [app.get], which answers with an empty list and caches it,
    but makes the route of [app.all] answer 500 unless the reply carries a
    positive total. *)
Theorem reply_without_jobs_results_differs_by_route
  (s : server) (id : nat) (k : continuation) (rest : list (nat * continuation))
  (total : option nat) (next : option string) :
  take_awaiting id (awaiting s) = Some (k, rest) ->
  total = None \/ total = Some O ->
  responses (step s (Reply id (Fulfilled {| jobs_results := None;
                                            total_results := total;
                                            next_token := next |})))
  = responses s
    ++ [(id, match k with
             | ResumeGet _ => {| status := 200; json := RawJobs [] |}
             | ResumeAll =>
                 {| status := 500;
                    json := Failure (Some "Failed to fetch jobs")
                              (Some "Cannot read properties of undefined (reading 'length')") |}
             end)]
  /\ match k with
     | ResumeGet key =>
         ResultCache.get key
           (cache (step s (Reply id (Fulfilled {| jobs_results := None;
                                                  total_results := total;
                                                  next_token := next |})))) = Some []
     | ResumeAll =>
         cache (step s (Reply id (Fulfilled {| jobs_results := None;
                                               total_results := total;
                                               next_token := next |}))) = cache s
     end.
Proof.
  intros Ht Htotal. simpl. rewrite Ht. destruct k as [key|].
  - unfold resume_get. simpl. rewrite responses_emit. split; [reflexivity|].
    unfold ResultCache.get, ResultCache.put. simpl. apply lookup_insert_eq.
  - unfold resume_all, all_success. simpl.
    destruct Htotal as [-> | ->]; simpl; rewrite responses_emit; split; reflexivity.
Qed.

Lemma reply_without_jobs_results_differs_by_route_witness :
  responses (run [Request 4 (query POST (Some "dean") None);
                  Reply 4 (Fulfilled {| jobs_results := None; total_results := None;
                                        next_token := None |})] (boot (Some "secret")))
  = [(4%nat, {| status := 500;
                json := Failure (Some "Failed to fetch jobs")
                          (Some "Cannot read properties of undefined (reading 'length')") |})].
Proof.
  apply (reply_without_jobs_results_differs_by_route
           (run [Request 4 (query POST (Some "dean") None)] (boot (Some "secret")))
           4 ResumeAll [] None None).
  - reflexivity.
  - left. reflexivity.
Defined.

Lemma responses_suspend (id : nat) (k : continuation) (s : server) :
  responses (suspend id k s) = responses s.
Proof. reflexivity. Qed.

Lemma awaiting_suspend (id : nat) (k : continuation) (s : server) :
  awaiting (suspend id k s) = awaiting s ++ [(id, k)].
Proof. reflexivity. Qed.

Lemma awaiting_emit (es : list effect) (s : server) : awaiting (emit es s) = awaiting s.
Proof. reflexivity. Qed.

Lemma get_handler_accounting (id : nat) (r : request) (s : server) :
  (length (responses (get_handler id r s)) + length (awaiting (get_handler id r s))
   = length (responses s) + length (awaiting s) + 1)%nat.
Proof.
  unfold get_handler. destruct (ResultCache.get _ (cache s)).
  - rewrite responses_emit, awaiting_emit, length_app. simpl. lia.
  - destruct (falsy (keyword r));
      [rewrite responses_emit, awaiting_emit, length_app; simpl; lia|].
    destruct (falsy (SERPAPI_KEY s));
      [rewrite responses_emit, awaiting_emit, length_app; simpl; lia|].
    rewrite responses_suspend, awaiting_suspend, responses_emit, awaiting_emit.
    rewrite !length_app. simpl. lia.
Qed.

Lemma all_handler_accounting (id : nat) (r : request) (s : server) :
  (length (responses (all_handler id r s)) + length (awaiting (all_handler id r s))
   = length (responses s) + length (awaiting s) + 1)%nat.
Proof.
  unfold all_handler.
  destruct (falsy (keyword r));
    [rewrite responses_emit, awaiting_emit, length_app; simpl; lia|].
  destruct (falsy (SERPAPI_KEY s));
    [rewrite responses_emit, awaiting_emit, length_app; simpl; lia|].
  rewrite responses_suspend, awaiting_suspend, responses_emit, awaiting_emit.
  rewrite !length_app. simpl. lia.
Qed.

Lemma step_accounting (s : server) (e : event) :
  (length (responses (step s e)) + length (awaiting (step s e))
   = length (responses s) + length (awaiting s) + if is_request e then 1 else 0)%nat.
Proof.
  destruct e as [id r | id u | t]; simpl.
  - unfold route.
    destruct (req_method r);
      auto using get_handler_accounting, all_handler_accounting.
  - destruct (take_awaiting id (awaiting s)) as [[k rest]|] eqn:T; [|lia].
    apply take_awaiting_length in T. rewrite T.
    destruct k as [key|].
    + unfold resume_get. destruct u as [data | message response_error];
        rewrite responses_emit, awaiting_emit, length_app; simpl;
        unfold responses; simpl; lia.
    + unfold resume_all. destruct u as [data | message response_error].
      * destruct (all_success data) as [b | [message]];
          rewrite responses_emit, awaiting_emit, length_app; simpl;
          unfold responses; simpl; lia.
      * rewrite responses_emit, awaiting_emit, length_app; simpl;
          unfold responses; simpl; lia.
  - unfold responses. simpl. lia.
Qed.

Lemma run_accounting (events : list event) (s : server) :
  (length (responses (run events s)) + length (awaiting (run events s))
   = length (responses s) + length (awaiting s)
     + length (List.filter is_request events))%nat.
Proof.
  revert s. induction events as [|e events IH]; intros s; simpl; [lia|].
  unfold run in *. simpl. rewrite IH, step_accounting.
  destruct (is_request e); simpl; lia.
Qed.

(** X15.  No request is lost and none is answered twice: after any sequence
    of events, the answers sent and the requests still waiting for the
    provider are together as many as before plus the requests received.
    Replies of the provider and the passing of time change nothing in that
    sum. *)
Theorem every_request_is_answered_or_waiting (events : list event) (s : server) :
  (length (responses (run events s)) + length (awaiting (run events s))
   = length (responses s) + length (awaiting s)
     + length (List.filter is_request events))%nat.
Proof. apply run_accounting. Qed.

Lemma valid_call_of_validated_query (key kw loc : option string) (id : nat)
  (token : option string) :
  falsy kw = false ->
  falsy key = false ->
  valid_call key (AxiosGet id {| engine := "google_jobs";
                                 q := to_str kw;
                                 search_location := or_else loc "United States";
                                 api_key := to_str key;
                                 page_token := token |}) = true.
Proof.
  intros Hk Hkey.
  apply falsy_false in Hk as [k [-> Hk]]. apply falsy_false in Hkey as [a [-> Ha]].
  apply String.eqb_neq in Hk, Ha. simpl. rewrite Hk, Ha.
  assert (Hloc : String.eqb (or_else loc "United States") "" = false).
  { apply String.eqb_neq, or_else_nonempty. discriminate. }
  rewrite Hloc. simpl. destruct (decide (Some a = Some a)); [reflexivity | congruence].
Qed.

Lemma step_keeps_calls_valid (key : option string) (s : server) (e : event) :
  SERPAPI_KEY s = key ->
  forallb (valid_call key) (log s) = true ->
  SERPAPI_KEY (step s e) = key /\ forallb (valid_call key) (log (step s e)) = true.
Proof.
  intros Hkey Hlog. destruct e as [id r | id u | t]; simpl.
  - assert (Hget : SERPAPI_KEY (get_handler id r s) = key
                   /\ forallb (valid_call key) (log (get_handler id r s)) = true).
    { unfold get_handler. destruct (ResultCache.get _ (cache s)).
      - simpl. rewrite forallb_app, Hlog. auto.
      - destruct (falsy (keyword r)) eqn:Fk; [simpl; rewrite forallb_app, Hlog; auto|].
        destruct (falsy (SERPAPI_KEY s)) eqn:Fa;
          [simpl; rewrite forallb_app, Hlog; auto|].
        cbn [suspend emit SERPAPI_KEY log]. rewrite forallb_app, Hlog.
        split; [assumption|]. cbn [forallb]. rewrite <- Hkey.
        rewrite valid_call_of_validated_query by assumption. reflexivity. }
    assert (Hall : SERPAPI_KEY (all_handler id r s) = key
                   /\ forallb (valid_call key) (log (all_handler id r s)) = true).
    { unfold all_handler.
      destruct (falsy (keyword r)) eqn:Fk; [simpl; rewrite forallb_app, Hlog; auto|].
      destruct (falsy (SERPAPI_KEY s)) eqn:Fa;
        [simpl; rewrite forallb_app, Hlog; auto|].
      cbn [suspend emit SERPAPI_KEY log]. rewrite forallb_app, Hlog.
      split; [assumption|]. cbn [forallb]. rewrite <- Hkey.
      rewrite valid_call_of_validated_query by assumption. reflexivity. }
    unfold route. destruct (req_method r); assumption.
  - destruct (take_awaiting id (awaiting s)) as [[k rest]|]; [|auto].
    destruct k as [ckey|].
    + unfold resume_get. destruct u; simpl; rewrite forallb_app, Hlog; auto.
    + unfold resume_all. destruct u as [data|].
      * destruct (all_success data) as [b | [message]];
          simpl; rewrite forallb_app, Hlog; auto.
      * simpl; rewrite forallb_app, Hlog; auto.
  - auto.
Qed.

Lemma run_keeps_calls_valid (key : option string) (events : list event) :
  forallb (valid_call key) (log (run events (boot key))) = true.
Proof.
  assert (H : forall s, SERPAPI_KEY s = key ->
                        forallb (valid_call key) (log s) = true ->
                        forallb (valid_call key) (log (run events s)) = true).
  { induction events as [|e events IH]; intros s Hk Hl; simpl; [assumption|].
    destruct (step_keeps_calls_valid key s e Hk Hl) as [Hk' Hl'].
    now apply IH. }
  now apply H.
Qed.


Lemma step_without_key (key : option string) (s : server) (e : event) :
  falsy key = true ->
  SERPAPI_KEY s = key /\ awaiting s = []
  /\ ResultCache.store (cache s) = ∅ /\ ResultCache.timers (cache s) = []
  /\ forallb rejection (responses s) = true ->
  SERPAPI_KEY (step s e) = key /\ awaiting (step s e) = []
  /\ ResultCache.store (cache (step s e)) = ∅
  /\ ResultCache.timers (cache (step s e)) = []
  /\ forallb rejection (responses (step s e)) = true.
Proof.
  intros Hfalsy (Hkey & Haw & Hst & Htm & Hresp).
  destruct e as [id r | id u | t]; simpl.
  - unfold route, get_handler, all_handler, ResultCache.get.
    rewrite Hst, lookup_empty, Hkey, Hfalsy.
    destruct (req_method r), (falsy (keyword r));
      rewrite responses_emit, forallb_app, Hresp; simpl; rewrite ?Hst; auto.
  - rewrite Haw. simpl. auto.
  - unfold ResultCache.advance. destruct (t <=? ResultCache.now (cache s)); simpl.
    + auto.
    + rewrite Htm, Hst. simpl. auto.
Qed.

(** X17.  A server without the provider key (unset or empty) never calls
    the provider and never stores anything: every request is answered at
    once, with the 400 or the 500 rejection, and the cache stays empty. *)
Theorem server_without_key_rejects_everything
  (key : option string) (events : list event) :
  falsy key = true ->
  awaiting (run events (boot key)) = []
  /\ ResultCache.store (cache (run events (boot key))) = ∅
  /\ forallb rejection (responses (run events (boot key))) = true
  /\ length (responses (run events (boot key))) = length (List.filter is_request events)
  /\ forallb (fun e => match e with AxiosGet _ _ => false | _ => true end)
       (log (run events (boot key))) = true.
Proof.
  intros Hfalsy.
  assert (H : forall s,
             SERPAPI_KEY s = key /\ awaiting s = []
             /\ ResultCache.store (cache s) = ∅ /\ ResultCache.timers (cache s) = []
             /\ forallb rejection (responses s) = true ->
             SERPAPI_KEY (run events s) = key /\ awaiting (run events s) = []
             /\ ResultCache.store (cache (run events s)) = ∅
             /\ ResultCache.timers (cache (run events s)) = []
             /\ forallb rejection (responses (run events s)) = true).
  { induction events as [|e events IH]; intros s Hs; simpl; [assumption|].
    apply IH, step_without_key; assumption. }
  destruct (H (boot key)) as (_ & Haw & Hst & _ & Hresp); [repeat split; reflexivity|].
  split; [assumption|]. split; [assumption|]. split; [assumption|]. split.
  - pose proof (run_accounting events (boot key)) as Hacc.
    rewrite Haw in Hacc. simpl in Hacc. lia.
  - pose proof (run_keeps_calls_valid key events) as Hvalid.
    rewrite forallb_forall in Hvalid |- *. intros e He. specialize (Hvalid e He).
    destruct e as [| | | | id p |]; try reflexivity.
    simpl in Hvalid. destruct (decide (key = Some (api_key p))) as [->|].
    + simpl in Hfalsy. destruct (decide (api_key p = "")) as [Heq|]; [|discriminate].
      rewrite Heq in Hvalid. simpl in Hvalid.
      now rewrite !andb_false_r in Hvalid.
    + now rewrite andb_false_r in Hvalid.
Qed.

Lemma server_without_key_rejects_everything_witness :
  awaiting (run [Request 1 (query GET (Some "nurse") None);
                 Request 2 (query POST None None); Tick 5;
                 Reply 1 (reply_with [])] (boot (Some ""))) = []
  /\ ResultCache.store (cache (run [Request 1 (query GET (Some "nurse") None);
                                    Request 2 (query POST None None); Tick 5;
                                    Reply 1 (reply_with [])] (boot (Some "")))) = ∅.
Proof.
  destruct (server_without_key_rejects_everything (Some "")
              [Request 1 (query GET (Some "nurse") None);
               Request 2 (query POST None None); Tick 5;
               Reply 1 (reply_with [])]) as (Ha & Hs & _); [reflexivity|].
  split; [exact Ha | exact Hs].
Defined.

(** ** Expiry *)

Lemma well_timed_empty : well_timed ResultCache.empty.
Proof.
  split; [intros tm [] | intros k v H; simpl in H; rewrite lookup_empty in H; discriminate].
Qed.

Lemma well_timed_put (key : string) (value : list (option RawPosting))
  (c : ResultCache.state) :
  well_timed c -> well_timed (ResultCache.put key value c).
Proof.
  intros [Ht Hs]. split; unfold ResultCache.put; simpl.
  - intros tm Hin. apply in_app_iff in Hin as [Hin | [<- | []]]; [auto|].
    simpl. unfold ResultCache.ttl. lia.
  - intros k v Hk. destruct (decide (key = k)) as [->|Hne].
    + exists (ResultCache.now c + ResultCache.ttl). apply in_app_iff. right. now left.
    + rewrite lookup_insert_ne in Hk by assumption.
      destruct (Hs k v Hk) as [d Hd]. exists d. apply in_app_iff. now left.
Qed.

Lemma well_timed_advance (t : Z) (c : ResultCache.state) :
  well_timed c -> well_timed (ResultCache.advance t c).
Proof.
  intros [Ht Hs]. unfold ResultCache.advance.
  destruct (t <=? ResultCache.now c) eqn:E; [now split|].
  apply Z.leb_gt in E. split; simpl.
  - intros tm Hin. apply filter_In in Hin as [Hin Hdue].
    apply negb_true_iff in Hdue. unfold ResultCache.due in Hdue.
    apply Z.leb_gt in Hdue. specialize (Ht tm Hin). lia.
  - intros k v Hk. rewrite CacheFacts.expire_all_lookup in Hk.
    destruct (existsb (ResultCache.for_key k) _) eqn:Ex; [discriminate|].
    destruct (Hs k v Hk) as [d Hd]. exists d. apply filter_In. split; [assumption|].
    destruct (ResultCache.due t (d, k)) eqn:Hdue; [|reflexivity].
    exfalso. rewrite <- not_true_iff_false, existsb_exists in Ex. apply Ex.
    exists (d, k). split; [apply filter_In; auto|].
    unfold ResultCache.for_key. simpl. apply String.eqb_refl.
Qed.

Lemma well_timed_run (ops : list ResultCache.op) (c : ResultCache.state) :
  well_timed c -> well_timed (ResultCache.run ops c).
Proof.
  revert c. induction ops as [|o ops IH]; intros c H; simpl; [assumption|].
  apply IH. destruct o; simpl; auto using well_timed_put, well_timed_advance.
Qed.

Lemma well_timed_expires (t : Z) (c : ResultCache.state) :
  well_timed c ->
  ResultCache.now c + ResultCache.ttl <= t ->
  ResultCache.store (ResultCache.advance t c) = ∅
  /\ ResultCache.timers (ResultCache.advance t c) = [].
Proof.
  intros [Ht Hs] Hle. unfold ResultCache.advance.
  destruct (t <=? ResultCache.now c) eqn:E;
    [apply Z.leb_le in E; unfold ResultCache.ttl in Hle; lia|].
  simpl. split.
  - apply map_eq. intros k. rewrite lookup_empty, CacheFacts.expire_all_lookup.
    destruct (existsb (ResultCache.for_key k) _) eqn:Ex; [reflexivity|].
    destruct (ResultCache.store c !! k) as [v|] eqn:Hk; [|reflexivity].
    exfalso. destruct (Hs k v Hk) as [d Hd].
    rewrite <- not_true_iff_false, existsb_exists in Ex. apply Ex.
    exists (d, k). split.
    + apply filter_In. split; [assumption|]. unfold ResultCache.due. simpl.
      apply Z.leb_le. specialize (Ht _ Hd). simpl in Ht. lia.
    + unfold ResultCache.for_key. simpl. apply String.eqb_refl.
  - destruct (nil_or_In (List.filter (fun tm => negb (ResultCache.due t tm))
                           (ResultCache.timers c))) as [H | [tm Htm]]; [assumption|].
    exfalso. apply filter_In in Htm as [Hin Hdue].
    apply negb_true_iff in Hdue. unfold ResultCache.due in Hdue.
    apply Z.leb_gt in Hdue. specialize (Ht tm Hin). lia.
Qed.

(** X18.  Nothing outlives the hour.  In every state that a server reaches,
    every stored key has a pending timer and every pending timer is due
    within 3600000 ms; so once the clock has advanced by that much, the
    cache is empty and no timer is left, whatever requests and replies came
    before and however they interleaved. *)
Theorem cache_is_empty_after_an_hour (key : option string) (events : list event) (t : Z) :
  ResultCache.now (cache (run events (boot key))) + ResultCache.ttl <= t ->
  well_timed (cache (run events (boot key)))
  /\ ResultCache.store (cache (run (events ++ [Tick t]) (boot key))) = ∅
  /\ ResultCache.timers (cache (run (events ++ [Tick t]) (boot key))) = [].
Proof.
  intros Hle.
  assert (Hw : well_timed (cache (run events (boot key)))).
  { rewrite run_cache. apply well_timed_run, well_timed_empty. }
  split; [exact Hw|].
  unfold run. rewrite fold_left_app. simpl.
  apply well_timed_expires; assumption.
Qed.

Lemma cache_is_empty_after_an_hour_witness :
  ResultCache.store
    (cache (run ([Request 1 (query GET (Some "nurse") (Some "Texas"));
                  Request 2 (query GET (Some "nurse") (Some "Texas"));
                  Tick 10; Reply 1 (reply_with [posting "A"]);
                  Tick 20; Reply 2 (reply_with [posting "B"])] ++ [Tick 3600020])
              (boot (Some "secret")))) = ∅.
Proof.
  apply (cache_is_empty_after_an_hour (Some "secret")
           [Request 1 (query GET (Some "nurse") (Some "Texas"));
            Request 2 (query GET (Some "nurse") (Some "Texas"));
            Tick 10; Reply 1 (reply_with [posting "A"]);
            Tick 20; Reply 2 (reply_with [posting "B"])] 3600020).
  vm_compute. discriminate.
Defined.

(** ** A query and its repetition *)

Lemma take_awaiting_fresh (id : nat) (k : continuation) (l : list (nat * continuation)) :
  take_awaiting id l = None -> take_awaiting id (l ++ [(id, k)]) = Some (k, l).
Proof.
  induction l as [|[id' k'] l IH]; simpl.
  - now rewrite Nat.eqb_refl.
  - destruct (Nat.eqb id id'); [discriminate|].
    destruct (take_awaiting id l) as [[k1 r1]|]; [discriminate|].
    intros _. now rewrite IH.
Qed.

Lemma now_advance (t : Z) (c : ResultCache.state) :
  ResultCache.now (ResultCache.advance t c) = Z.max t (ResultCache.now c).
Proof.
  unfold ResultCache.advance. destruct (t <=? ResultCache.now c) eqn:E; simpl.
  - apply Z.leb_le in E. lia.
  - apply Z.leb_gt in E. lia.
Qed.

Lemma get_after_put_and_advance (key : string) (value : list (option RawPosting))
  (t : Z) (c : ResultCache.state) :
  ResultCache.pending_for key c = [] ->
  t < ResultCache.now c + ResultCache.ttl ->
  ResultCache.get key (ResultCache.advance t (ResultCache.put key value c)) = Some value.
Proof.
  intros Hp Ht.
  pose proof (CacheFacts.lifetime_advance key value _ _ t _
                (CacheFacts.lifetime_put key value c Hp)) as H.
  destruct H as [(_ & Hst & _) | (Hnow & _)]; [exact Hst|].
  rewrite now_advance in Hnow. simpl in Hnow. unfold ResultCache.ttl in *. lia.
Qed.

Lemma route_get (id : nat) (r : request) (s : server) :
  is_get r = true -> route id r s = get_handler id r s.
Proof. unfold is_get, route. destruct (req_method r); intros H; try discriminate; reflexivity. Qed.

Lemma same_key_is_served_from_cache
  (s : server) (id1 id2 : nat) (r r2 : request) (data : upstream_data) (t : Z) :
  is_get r = true ->
  is_get r2 = true ->
  cacheKey (keyword r2) (req_location r2) = cacheKey (keyword r) (req_location r) ->
  falsy (keyword r) = false ->
  falsy (SERPAPI_KEY s) = false ->
  ResultCache.get (cacheKey (keyword r) (req_location r)) (cache s) = None ->
  ResultCache.pending_for (cacheKey (keyword r) (req_location r)) (cache s) = [] ->
  take_awaiting id1 (awaiting s) = None ->
  t < ResultCache.now (cache s) + ResultCache.ttl ->
  log (run [Request id1 r; Reply id1 (Fulfilled data); Tick t; Request id2 r2] s)
  = log s
    ++ [CacheHas (cacheKey (keyword r) (req_location r)) false;
        AxiosGet id1 {| engine := "google_jobs";
                        q := to_str (keyword r);
                        search_location := or_else (req_location r) "United States";
                        api_key := to_str (SERPAPI_KEY s);
                        page_token := None |};
        CacheSet (cacheKey (keyword r) (req_location r));
        SetTimeout (cacheKey (keyword r) (req_location r)) 3600000;
        Respond id1 {| status := 200;
                       json := RawJobs (default [] (jobs_results data)) |};
        CacheHas (cacheKey (keyword r) (req_location r)) true;
        CacheGet (cacheKey (keyword r) (req_location r));
        Respond id2 {| status := 200;
                       json := RawJobs (default [] (jobs_results data)) |}].
Proof.
  intros Hg Hg2 Hsame Hkw Hkey Hmiss Hpend Hfresh Ht.
  set (key := cacheKey (keyword r) (req_location r)) in *.
  unfold run. cbn [fold_left step].
  rewrite (route_get id1 r s Hg).
  assert (H1 : get_handler id1 r s
               = suspend id1 (ResumeGet key)
                   (emit [CacheHas key false;
                          AxiosGet id1 {| engine := "google_jobs";
                                          q := to_str (keyword r);
                                          search_location := or_else (req_location r) "United States";
                                          api_key := to_str (SERPAPI_KEY s);
                                          page_token := None |}] s)).
  { unfold get_handler. fold key. now rewrite Hmiss, Hkw, Hkey. }
  rewrite H1. rewrite awaiting_suspend, awaiting_emit.
  rewrite (take_awaiting_fresh id1 (ResumeGet key) _ Hfresh).
  cbn [resume_get].
  match goal with
  | |- log (route id2 r2 ?st) = _ => set (s3 := st)
  end.
  rewrite (route_get id2 r2 s3 Hg2).
  assert (Hhit : ResultCache.get (cacheKey (keyword r2) (req_location r2)) (cache s3)
                 = Some (default [] (jobs_results data))).
  { rewrite Hsame. unfold s3. cbn [with_cache emit cache suspend].
    now apply get_after_put_and_advance. }
  rewrite (get_handler_serves_hit id2 r2 s3 _ Hhit). rewrite Hsame.
  unfold s3. cbn [with_cache emit log suspend SERPAPI_KEY cache awaiting].
  rewrite <- !app_assoc. reflexivity.
Qed.

(** X19.  A query and its repetition within the hour cost one call.  Let a
    GET request with a keyword arrive when its key is not cached and no
    timer is pending for it, and let the provider reply with data.  Then a
    second GET request with the same keyword and location that arrives
    before the hour is over is answered with exactly the list of the first
    answer, from the cache, and the provider is not called again. *)
Theorem repeated_query_is_served_from_cache
  (s : server) (id1 id2 : nat) (r r2 : request) (data : upstream_data) (t : Z) :
  is_get r = true ->
  is_get r2 = true ->
  keyword r2 = keyword r ->
  req_location r2 = req_location r ->
  falsy (keyword r) = false ->
  falsy (SERPAPI_KEY s) = false ->
  ResultCache.get (cacheKey (keyword r) (req_location r)) (cache s) = None ->
  ResultCache.pending_for (cacheKey (keyword r) (req_location r)) (cache s) = [] ->
  take_awaiting id1 (awaiting s) = None ->
  t < ResultCache.now (cache s) + ResultCache.ttl ->
  log (run [Request id1 r; Reply id1 (Fulfilled data); Tick t; Request id2 r2] s)
  = log s
    ++ [CacheHas (cacheKey (keyword r) (req_location r)) false;
        AxiosGet id1 {| engine := "google_jobs";
                        q := to_str (keyword r);
                        search_location := or_else (req_location r) "United States";
                        api_key := to_str (SERPAPI_KEY s);
                        page_token := None |};
        CacheSet (cacheKey (keyword r) (req_location r));
        SetTimeout (cacheKey (keyword r) (req_location r)) 3600000;
        Respond id1 {| status := 200;
                       json := RawJobs (default [] (jobs_results data)) |};
        CacheHas (cacheKey (keyword r) (req_location r)) true;
        CacheGet (cacheKey (keyword r) (req_location r));
        Respond id2 {| status := 200;
                       json := RawJobs (default [] (jobs_results data)) |}].
Proof.
  intros Hg Hg2 Hk Hl. apply same_key_is_served_from_cache; try assumption.
  now rewrite Hk, Hl.
Qed.

Lemma repeated_query_is_served_from_cache_witness :
  log (run [Request 1 (query GET (Some "nurse") (Some "Texas"));
            Reply 1 (reply_with [posting "Nurse"]);
            Tick 3599999;
            Request 2 {| req_method := HEAD; keyword := Some "nurse";
                         req_location := Some "Texas";
                         next_page_token := Some "page-2" |}] (boot (Some "secret")))
  = log (boot (Some "secret"))
    ++ [CacheHas "nurse-Texas" false;
        AxiosGet 1 {| engine := "google_jobs"; q := "nurse"; search_location := "Texas";
                      api_key := "secret"; page_token := None |};
        CacheSet "nurse-Texas";
        SetTimeout "nurse-Texas" 3600000;
        Respond 1 {| status := 200; json := RawJobs [posting "Nurse"] |};
        CacheHas "nurse-Texas" true;
        CacheGet "nurse-Texas";
        Respond 2 {| status := 200; json := RawJobs [posting "Nurse"] |}].
Proof.
  apply (repeated_query_is_served_from_cache (boot (Some "secret")) 1 2
           (query GET (Some "nurse") (Some "Texas"))
           {| req_method := HEAD; keyword := Some "nurse"; req_location := Some "Texas";
              next_page_token := Some "page-2" |}
           {| jobs_results := Some [posting "Nurse"]; total_results := None;
              next_token := None |} 3599999); try reflexivity.
Defined.

(** ** What each route never does *)

Lemma take_awaiting_Forall (P : nat * continuation -> Prop) (id : nat)
  (l rest : list (nat * continuation)) (k : continuation) :
  List.Forall P l -> take_awaiting id l = Some (k, rest) ->
  P (id, k) /\ List.Forall P rest.
Proof.
  revert k rest. induction l as [|[id' k'] l IH]; intros k rest HP; simpl; [discriminate|].
  inversion HP as [|? ? Hx Hl]; subst.
  destruct (Nat.eqb id id') eqn:E.
  - apply Nat.eqb_eq in E. subst id'. intros H. inversion H; subst. auto.
  - destruct (take_awaiting id l) as [[k1 r1]|]; simpl; [|discriminate].
    intros H. inversion H; subst. destruct (IH k r1 Hl eq_refl) as [Hk Hr]. auto.
Qed.

Lemma step_all_route_keeps_cache_untouched (s : server) (e : event) :
  no_gets e = true ->
  ResultCache.store (cache s) = ∅ /\ ResultCache.timers (cache s) = []
  /\ List.Forall resumes_all (awaiting s)
  /\ forallb (fun x => negb (cache_effect x)) (log s) = true ->
  ResultCache.store (cache (step s e)) = ∅ /\ ResultCache.timers (cache (step s e)) = []
  /\ List.Forall resumes_all (awaiting (step s e))
  /\ forallb (fun x => negb (cache_effect x)) (log (step s e)) = true.
Proof.
  intros He (Hst & Htm & Haw & Hlog). destruct e as [id r | id u | t]; simpl in *.
  - unfold route, is_get in *. unfold all_handler.
    destruct (req_method r); try discriminate He;
      (destruct (falsy (keyword r));
       [simpl; rewrite forallb_app, Hlog; auto|];
       destruct (falsy (SERPAPI_KEY s));
       [simpl; rewrite forallb_app, Hlog; auto|];
       cbn [suspend emit cache awaiting log]; rewrite forallb_app, Hlog;
       repeat split; auto; apply Forall_app; split; [assumption|];
       repeat constructor).
  - destruct (take_awaiting id (awaiting s)) as [[k rest]|] eqn:T; [|auto].
    destruct (take_awaiting_Forall _ _ _ _ _ Haw T) as [Hk Hrest].
    unfold resumes_all in Hk. simpl in Hk. subst k.
    unfold resume_all. destruct u as [data|].
    + destruct (all_success data) as [b | [message]];
        simpl; rewrite forallb_app, Hlog; auto.
    + simpl; rewrite forallb_app, Hlog; auto.
  - unfold ResultCache.advance. destruct (t <=? ResultCache.now (cache s)); simpl; [auto|].
    rewrite Htm, Hst. simpl. auto.
Qed.

(** X20.  The route of [app.all] never touches the cache: as long as no GET
    or HEAD request arrives, nothing is looked up, stored or scheduled and
    the cache stays empty, so every repeated query calls the provider
    again. *)
Theorem other_methods_never_use_the_cache (key : option string) (events : list event) :
  forallb no_gets events = true ->
  ResultCache.store (cache (run events (boot key))) = ∅
  /\ ResultCache.timers (cache (run events (boot key))) = []
  /\ forallb (fun x => negb (cache_effect x)) (log (run events (boot key))) = true.
Proof.
  intros Hev.
  assert (H : forall s,
             ResultCache.store (cache s) = ∅ /\ ResultCache.timers (cache s) = []
             /\ List.Forall resumes_all (awaiting s)
             /\ forallb (fun x => negb (cache_effect x)) (log s) = true ->
             ResultCache.store (cache (run events s)) = ∅
             /\ ResultCache.timers (cache (run events s)) = []
             /\ List.Forall resumes_all (awaiting (run events s))
             /\ forallb (fun x => negb (cache_effect x)) (log (run events s)) = true).
  { induction events as [|e events IH]; intros s Hs; simpl; [assumption|].
    simpl in Hev. apply andb_true_iff in Hev as [He Hev].
    apply IH; [assumption|]. now apply step_all_route_keeps_cache_untouched. }
  destruct (H (boot key)) as (Hst & Htm & _ & Hlog).
  - repeat split; try reflexivity. constructor.
  - auto.
Qed.

Lemma other_methods_never_use_the_cache_witness :
  ResultCache.store
    (cache (run [Request 1 (query POST (Some "dean") None);
                 Reply 1 (reply_with [posting "Dean"]); Tick 9;
                 Request 2 (query POST (Some "dean") None)] (boot (Some "secret")))) = ∅.
Proof.
  apply (other_methods_never_use_the_cache (Some "secret")
           [Request 1 (query POST (Some "dean") None);
            Reply 1 (reply_with [posting "Dean"]); Tick 9;
            Request 2 (query POST (Some "dean") None)]).
  reflexivity.
Defined.

Lemma step_get_route_sends_no_mapped_answer (s : server) (e : event) :
  gets_only e = true ->
  List.Forall resumes_get (awaiting s)
  /\ forallb (fun ir => negb (mapped_answer ir)) (responses s) = true
  /\ forallb unpaged_call (log s) = true ->
  List.Forall resumes_get (awaiting (step s e))
  /\ forallb (fun ir => negb (mapped_answer ir)) (responses (step s e)) = true
  /\ forallb unpaged_call (log (step s e)) = true.
Proof.
  intros He (Haw & Hresp & Hlog). destruct e as [id r | id u | t]; simpl in *.
  - rewrite (route_get id r s He). unfold get_handler.
    destruct (ResultCache.get _ (cache s));
      [rewrite responses_emit, forallb_app, Hresp; simpl;
       rewrite forallb_app, Hlog; auto|].
    destruct (falsy (keyword r));
      [rewrite responses_emit, forallb_app, Hresp; simpl;
       rewrite forallb_app, Hlog; auto|].
    destruct (falsy (SERPAPI_KEY s));
      [rewrite responses_emit, forallb_app, Hresp; simpl;
       rewrite forallb_app, Hlog; auto|].
    rewrite awaiting_suspend, responses_suspend, responses_emit, forallb_app, Hresp.
    cbn [suspend emit log]. rewrite forallb_app, Hlog.
    split; [|split; reflexivity]. apply Forall_app. split; [assumption|].
    repeat constructor. eexists. reflexivity.
  - destruct (take_awaiting id (awaiting s)) as [[k rest]|] eqn:T; [|auto].
    destruct (take_awaiting_Forall _ _ _ _ _ Haw T) as [[key Hk] Hrest].
    simpl in Hk. subst k. unfold resume_get.
    destruct u; rewrite responses_emit, forallb_app; simpl;
      unfold responses in *; simpl; rewrite Hresp, forallb_app, Hlog; auto.
  - auto.
Qed.

(** X21.  The route of [app.get] never maps a posting and never pages: as
    long as only GET and HEAD requests arrive, no answer carries mapped
    records, keywords, a total or a page token (the answers are raw lists of
    the provider or rejections), and no call to the provider carries the
    page token of the request. *)
Theorem get_route_never_sends_mapped_records (key : option string) (events : list event) :
  forallb gets_only events = true ->
  forallb (fun ir => negb (mapped_answer ir)) (responses (run events (boot key))) = true
  /\ forallb unpaged_call (log (run events (boot key))) = true.
Proof.
  intros Hev.
  assert (H : forall s,
             List.Forall resumes_get (awaiting s)
             /\ forallb (fun ir => negb (mapped_answer ir)) (responses s) = true
             /\ forallb unpaged_call (log s) = true ->
             List.Forall resumes_get (awaiting (run events s))
             /\ forallb (fun ir => negb (mapped_answer ir)) (responses (run events s)) = true
             /\ forallb unpaged_call (log (run events s)) = true).
  { induction events as [|e events IH]; intros s Hs; simpl; [assumption|].
    simpl in Hev. apply andb_true_iff in Hev as [He Hev].
    apply IH; [assumption|]. now apply step_get_route_sends_no_mapped_answer. }
  destruct (H (boot key)) as (_ & Hr & Hl); [|auto].
  split; [constructor | split; reflexivity].
Qed.

Lemma get_route_never_sends_mapped_records_witness :
  forallb unpaged_call
    (log (run [Request 1 {| req_method := GET; keyword := Some "dean";
                            req_location := None; next_page_token := Some "page-2" |};
               Reply 1 (reply_with [posting "Dean"]);
               Request 2 (query HEAD (Some "dean") None)] (boot (Some "secret"))))
  = true.
Proof.
  apply (get_route_never_sends_mapped_records (Some "secret")
           [Request 1 {| req_method := GET; keyword := Some "dean";
                         req_location := None; next_page_token := Some "page-2" |};
            Reply 1 (reply_with [posting "Dean"]);
            Request 2 (query HEAD (Some "dean") None)]).
  reflexivity.
Defined.

(** ** Cache keys *)




Lemma hyphen_free_prefix (a b x y : string) :
  no_hyphen a = true -> no_hyphen b = true ->
  a +:+ String "-" x = b +:+ String "-" y -> a = b /\ x = y.
Proof.
  revert b. induction a as [|c a IH]; intros [|d b] Ha Hb H.
  - simpl in H. inversion H. auto.
  - simpl in H. inversion H; subst d. unfold no_hyphen in Hb. simpl in Hb. discriminate.
  - simpl in H. inversion H; subst c. unfold no_hyphen in Ha. simpl in Ha. discriminate.
  - change (String c (a +:+ String "-" x) = String d (b +:+ String "-" y)) in H.
    inversion H; subst d.
    unfold no_hyphen in *. simpl in Ha, Hb.
    rewrite negb_orb in Ha, Hb. apply andb_true_iff in Ha as [_ Ha].
    apply andb_true_iff in Hb as [_ Hb].
    destruct (IH b Ha Hb) as [-> ->]; auto.
Qed.

(** X23.  A cache key tells its query apart from every other one as long as
    keywords have no hyphen: two keys are then equal only for the same
    keyword and the same location, where an absent keyword or location
    counts as the word "undefined". *)
Theorem cacheKey_is_injective_without_hyphen (k1 l1 k2 l2 : option string) :
  no_hyphen (to_str k1) = true ->
  no_hyphen (to_str k2) = true ->
  cacheKey k1 l1 = cacheKey k2 l2 ->
  to_str k1 = to_str k2 /\ to_str l1 = to_str l2.
Proof. unfold cacheKey. intros H1 H2 H. now apply hyphen_free_prefix. Qed.

Lemma cacheKey_is_injective_without_hyphen_witness :
  to_str (Some "nurse") = to_str (Some "nurse")
  /\ to_str (Some "undefined") = to_str None.
Proof.
  apply (cacheKey_is_injective_without_hyphen (Some "nurse") (Some "undefined")
           (Some "nurse") None); reflexivity.
Defined.




(** ** Failures of the provider *)

(** X25.  A failed provider call is answered 500 and leaves no trace: when
    the call of a GET request that missed the cache is rejected, the request
    gets the answer "API request failed" with the message of the failure,
    and the cache and the waiting requests are as they were before the
    request, so the same query asks the provider again. *)
Theorem failed_call_is_not_cached
  (s : server) (id : nat) (r : request) (message : string)
  (response_error : option (option string)) :
  is_get r = true ->
  falsy (keyword r) = false ->
  falsy (SERPAPI_KEY s) = false ->
  ResultCache.get (cacheKey (keyword r) (req_location r)) (cache s) = None ->
  take_awaiting id (awaiting s) = None ->
  responses (run [Request id r; Reply id (Rejected message response_error)] s)
  = responses s
    ++ [(id, {| status := 500;
                json := Failure (Some "API request failed") (Some message) |})]
  /\ cache (run [Request id r; Reply id (Rejected message response_error)] s) = cache s
  /\ awaiting (run [Request id r; Reply id (Rejected message response_error)] s)
     = awaiting s.
Proof.
  intros Hg Hkw Hkey Hmiss Hfresh. unfold run. cbn [fold_left step].
  rewrite (route_get id r s Hg). unfold get_handler. rewrite Hmiss, Hkw, Hkey.
  rewrite awaiting_suspend, awaiting_emit.
  rewrite (take_awaiting_fresh id _ _ Hfresh). cbn [resume_get].
  rewrite responses_emit. split; [|split; reflexivity].
  unfold responses. cbn [log suspend emit]. rewrite omap_app. simpl.
  now rewrite app_nil_r.
Qed.

Lemma failed_call_is_not_cached_witness :
  cache (run [Request 1 (query GET (Some "nurse") None);
              Reply 1 (Rejected "timeout of 5000ms exceeded" None)] (boot (Some "secret")))
  = cache (boot (Some "secret")).
Proof.
  apply (failed_call_is_not_cached (boot (Some "secret")) 1
           (query GET (Some "nurse") None) "timeout of 5000ms exceeded" None);
    reflexivity.
Defined.
